(** * SDRangel DSP core: CIC-compensating FIR design and spectrum pipeline

    A shallow embedding of [ICFIR::icfir_impulse] (wdsp/icfir.cpp) and of
    [SpectrumVis] (sdrbase/dsp/spectrumvis.cpp), with the properties the
    specification states about them.

    Conventions.
    - C [int] and [std::size_t] values are integers in [Z]; the places where
      the source would overflow, throw or index out of range are made
      explicit (a function returns [None] there).
    - The [float] parameters of [icfir_impulse] are IEEE binary32 values
      ([float32]), and the expressions of type [float] built from them (the
      quotients of two rates, and the products that are cast to [int]) are
      evaluated in binary32, bit for bit: the integers they yield depend on
      the rounding.
    - Every other floating-point value is an [fp]: a real number, an
      infinity or a NaN. Its arithmetic is the IEEE one on exact reals:
      infinities and NaN arise and propagate as in C, rounding does not
      happen, and a zero has no sign.
    - [std::vector] is a [list]; [v[i] = x] is stdpp's [<[i:=x]> v]. *)

From Stdlib Require Import ZArith Reals Lra Lia String Floats.SpecFloat.
From stdpp Require Import base option list.

(** ** Loops *)

(** [for (i = a; i < a + n; i++) s = body(i, s);] *)
Definition for_loop {S : Type} (a n : nat) (body : nat -> S -> S) (s : S) : S :=
  fold_left (fun s i => body i s) (seq a n) s.

(** ** C numeric conversions and limits *)

Definition INT_MAX : Z := 2 ^ 31 - 1.
Definition INT_MIN : Z := - 2 ^ 31.

Definition in_int (z : Z) : bool := (INT_MIN <=? z)%Z && (z <=? INT_MAX)%Z.

(** ** Floating-point values *)

(** A floating-point value without its rounding. Where the sign of a zero
    would decide a result (a non-zero number divided by zero) the zero is
    taken as positive. *)
Inductive fp : Type :=
| Num (r : R)
| PInf
| NInf
| NaN.

Definition is_zero (r : R) : bool := if Req_dec_T r 0 then true else false.
Definition is_neg (r : R) : bool := if Rlt_dec r 0 then true else false.

(** [- x] *)
Definition fneg (x : fp) : fp :=
  match x with
  | Num a => Num (- a)
  | PInf => NInf
  | NInf => PInf
  | NaN => NaN
  end.

(** [x + y] *)
Definition fadd (x y : fp) : fp :=
  match x, y with
  | Num a, Num b => Num (a + b)
  | NaN, _ | _, NaN => NaN
  | PInf, NInf | NInf, PInf => NaN
  | PInf, _ | _, PInf => PInf
  | NInf, _ | _, NInf => NInf
  end.

(** [x * y] *)
Definition fmul (x y : fp) : fp :=
  match x, y with
  | Num a, Num b => Num (a * b)
  | NaN, _ | _, NaN => NaN
  | Num a, PInf | PInf, Num a =>
      if is_zero a then NaN else if is_neg a then NInf else PInf
  | Num a, NInf | NInf, Num a =>
      if is_zero a then NaN else if is_neg a then PInf else NInf
  | PInf, PInf | NInf, NInf => PInf
  | PInf, NInf | NInf, PInf => NInf
  end.

(** [x / y] *)
Definition fdiv (x y : fp) : fp :=
  match x, y with
  | Num a, Num b =>
      if is_zero b then
        if is_zero a then NaN else if is_neg a then NInf else PInf
      else Num (a / b)
  | NaN, _ | _, NaN => NaN
  | Num _, PInf | Num _, NInf => Num 0
  | PInf, Num b => if is_neg b then NInf else PInf
  | NInf, Num b => if is_neg b then PInf else NInf
  | PInf, PInf | PInf, NInf | NInf, PInf | NInf, NInf => NaN
  end.

(** [sin (x)], [cos (x)] *)
Definition fsin (x : fp) : fp :=
  match x with Num a => Num (sin a) | _ => NaN end.
Definition fcos (x : fp) : fp :=
  match x with Num a => Num (cos a) | _ => NaN end.

(** [pow (x, n)] for an [int] exponent [n] *)
Definition fpow (x : fp) (n : Z) : fp :=
  if (n =? 0)%Z then Num 1
  else
    match x with
    | Num a =>
        if is_zero a then (if (0 <? n)%Z then Num 0 else PInf)
        else Num (powerRZ a n)
    | PInf => if (0 <? n)%Z then PInf else Num 0
    | NInf => if (0 <? n)%Z then (if Z.odd n then NInf else PInf) else Num 0
    | NaN => NaN
    end.

(** [log2f (x)], [log10f (x)] *)
Definition flog (base : R) (x : fp) : fp :=
  match x with
  | Num a =>
      if is_zero a then NInf else if is_neg a then NaN
      else Num (ln a / ln base)
  | PInf => PInf
  | NInf | NaN => NaN
  end.

(** [x < y], [x <= y], [x == y]: false as soon as an operand is a NaN. *)
Definition flt (x y : fp) : bool :=
  match x, y with
  | Num a, Num b => if Rlt_dec a b then true else false
  | NaN, _ | _, NaN => false
  | NInf, Num _ | NInf, PInf | Num _, PInf => true
  | _, _ => false
  end.

Definition fle (x y : fp) : bool :=
  match x, y with
  | Num a, Num b => if Rle_dec a b then true else false
  | NaN, _ | _, NaN => false
  | NInf, _ | _, PInf => true
  | _, _ => false
  end.

Definition feq (x y : fp) : bool :=
  match x, y with
  | Num a, Num b => if Req_dec_T a b then true else false
  | PInf, PInf | NInf, NInf => true
  | _, _ => false
  end.

(** ** IEEE binary32 *)

(** A C [float], as the standard library's [spec_float] at precision 24 and
    maximal exponent 128. *)
Definition float32 : Type := spec_float.

(** [(float) n] for an [int] [n] *)
Definition float_of_int (n : Z) : float32 := binary_normalize 24 128 n 0 false.

(** [x / y] and [x * y] on two [float] *)
Definition float_div (x y : float32) : float32 := SFdiv 24 128 x y.
Definition float_mul (x y : float32) : float32 := SFmul 24 128 x y.

(** [(int) x]: truncation toward zero; undefined ([None]) for a NaN, an
    infinity and a value outside the range of [int]. *)
Definition float_to_int (x : float32) : option Z :=
  match x with
  | S754_zero _ => Some 0%Z
  | S754_finite s m e =>
      let q := if (0 <=? e)%Z then (Z.pos m * 2 ^ e)%Z
               else (Z.pos m / 2 ^ (- e))%Z in
      let z := if s then (- q)%Z else q in
      if in_int z then Some z else None
  | S754_infinity _ | S754_nan => None
  end.

(** The value of a [float] once converted to [double]. *)
Definition float_value (x : float32) : fp :=
  match x with
  | S754_zero _ => Num 0
  | S754_finite s m e =>
      let z := if s then Z.neg m else Z.pos m in
      if (0 <=? e)%Z then Num (IZR (z * 2 ^ e))
      else Num (IZR z / IZR (2 ^ (- e)))
  | S754_infinity s => if s then NInf else PInf
  | S754_nan => NaN
  end.

(** ** Loops that may fail *)

(** A loop whose body may leave the defined behaviour of the source; the
    loop stops with [None] at the first such iteration. *)
Fixpoint for_each {S : Type} (body : nat -> S -> option S) (ixs : list nat) (s : S) :
    option S :=
  match ixs with
  | [] => Some s
  | i :: ixs' => s' ← body i s; for_each body ixs' s'
  end.

Definition for_loop_opt {S : Type} (a n : nat) (body : nat -> S -> option S) (s : S) :
    option S :=
  for_each body (seq a n) s.

(** [v[i] = x] on a [std::vector]: undefined when [i] is out of range. *)
Definition vstore {T : Type} (i : nat) (x : T) (v : list T) : option (list T) :=
  if decide (i < length v)%nat then Some (<[i := x]> v) else None.
(** ** wdsp/icfir.cpp *)

Module ICFIR.
Local Open Scope R_scope.

(** [std::vector<float>::resize]: keeps a prefix, pads with zeros. *)
Definition vector_resize (n : nat) (v : list fp) : list fp :=
  take n v ++ replicate (n - length v) (Num 0).

(** [int u_samps = (_N + 1) / 2;] *)
Definition u_samps (N : Z) : Z := ((N + 1) ÷ 2)%Z.

(** [(int)(width / _runrate * _N)], the conversion both sample counts share:
    the quotient and the product are binary32 operations, [_N] is converted
    to [float] first, and the cast truncates. *)
Definition band_samps (N : Z) (width runrate : float32) : option Z :=
  float_to_int (float_mul (float_div width runrate) (float_of_int N)).

(** [int c_samps = (int)(_cutoff / _runrate * _N) + (_N + 1) / 2 - _N / 2;]
    with the two [int] additions checked for overflow. *)
Definition c_samps (N : Z) (cutoff runrate : float32) : option Z :=
  c ← band_samps N cutoff runrate;
  if in_int (N + 1) && in_int (c + (N + 1) ÷ 2)
     && in_int (c + (N + 1) ÷ 2 - N ÷ 2)
  then Some (c + (N + 1) ÷ 2 - N ÷ 2)%Z else None.

(** [auto x_samps = (int)(_xbw / _runrate * _N);] *)
Definition x_samps (N : Z) (xbw runrate : float32) : option Z :=
  band_samps N xbw runrate.

(** [double offset = 0.5f - 0.5f * (float)((_N + 1) / 2 - _N / 2);] *)
Definition offset (N : Z) : R :=
  0.5 - 0.5 * IZR ((N + 1) ÷ 2 - N ÷ 2).

(** [double ft = _cutoff / _cicrate;] and [double L = _cicrate / _runrate;]:
    binary32 quotients, then converted to [double]. *)
Definition ft (cutoff cicrate : float32) : fp :=
  float_value (float_div cutoff cicrate).
Definition L (cicrate runrate : float32) : fp :=
  float_value (float_div cicrate runrate).

(** The transition table:
    [for (i = 0; i <= x_samps; i++) { xistion[i] = 0.5 * (cos (phs) + 1.0); phs += delta; }] *)
Fixpoint xistion_loop (n : nat) (delta phs : fp) : list fp :=
  match n with
  | O => []
  | S n' =>
      fmul (Num 0.5) (fadd (fcos phs) (Num 1))
      :: xistion_loop n' delta (fadd phs delta)
  end.

(** [std::vector<double> xistion(x_samps + 1); double delta = PI / (float)x_samps;] *)
Definition xistion (xs : Z) : list fp :=
  xistion_loop (Z.to_nat (xs + 1)) (fdiv (Num PI) (Num (IZR xs))) (Num 0).

(** [if ((tmp = e) < 0.0) tmp = -tmp;] *)
Definition abs_neg (tmp : fp) : fp := if flt tmp (Num 0) then fneg tmp else tmp.

(** [_DD * _R * sin (PI * ft / _R) / sin (PI * _DD * ft)], made non-negative:
    the CIC gain at [ft]. *)
Definition peak_gain (DD Rcic : Z) (ft : fp) : fp :=
  abs_neg
    (fdiv (fmul (Num (IZR (DD * Rcic)))
             (fsin (fdiv (fmul (Num PI) ft) (Num (IZR Rcic)))))
       (fsin (fmul (fmul (Num PI) (Num (IZR DD))) ft))).

(** [local_scale = _scale / pow (tmp, _Pairs);] *)
Definition local_scale (DD Rcic Pairs : Z) (ft scale : fp) : fp :=
  fdiv scale (fpow (peak_gain DD Rcic ft) Pairs).

(** The in-band magnitude at normalized frequency [fn]:
    [if (fn == 0.0) tmp = 1.0;
     else if ((tmp = sin (PI * _DD * fn) / (_DD * _R * sin (PI * fn / _R))) < 0.0)
         tmp = -tmp;
     mag = pow (tmp, _Pairs) * local_scale;] *)
Definition inband (DD Rcic Pairs : Z) (lscale fn : fp) : fp :=
  let tmp :=
    if feq fn (Num 0) then Num 1
    else abs_neg
           (fdiv (fsin (fmul (fmul (Num PI) (Num (IZR DD))) fn))
              (fmul (Num (IZR (DD * Rcic)))
                 (fsin (fdiv (fmul (Num PI) fn) (Num (IZR Rcic)))))) in
  fmul (fpow tmp Pairs) lscale.

(** State of the two magnitude loops: [ri], [mag] and the array [A]. *)
Record MagLoop := { ri : R; mag : fp; A : list fp }.

(** A loop body that stores into [A[i]] and advances [ri] by one. *)
Definition stores (body : nat -> MagLoop -> MagLoop) : Prop :=
  forall i st, ri (body i st) = ri st + 1 /\
    exists v, A (body i st) = <[i := v]> (A st).

(** The magnitude array, from the quantities the head of the function has
    derived: the normalized cutoff [ft], the rate ratio [L], the sample
    counts [cs] ([c_samps]) and [xs] ([x_samps]) and the scale. *)
Section Magnitude.
Variables (N DD Rcic Pairs : Z) (ft L : fp) (cs xs : Z) (scale : fp).

(** [fn = ri / (L * (float)_N);] *)
Definition fn_of (r : R) : fp := fdiv (Num r) (fmul L (Num (IZR N))).

(** Body of the loop for [_xtype == 0] (fourth-power rolloff). *)
Definition step_pow4 (i : nat) (st : MagLoop) : MagLoop :=
  let fn := fn_of (ri st) in
  let mag' :=
    if fle fn ft then inband DD Rcic Pairs (local_scale DD Rcic Pairs ft scale) fn
    else fmul (mag st)
           (fdiv (fmul (fmul (fmul ft ft) ft) ft)
              (fmul (fmul (fmul fn fn) fn) fn)) in
  {| ri := ri st + 1; mag := mag'; A := <[i := mag']> (A st) |}.

(** Body of the loop for [_xtype == 1] (raised-cosine transition). *)
Definition step_rcos (i : nat) (st : MagLoop) : MagLoop :=
  let fn := fn_of (ri st) in
  if (Z.of_nat i <? cs)%Z then
    let mag' := inband DD Rcic Pairs (local_scale DD Rcic Pairs ft scale) fn in
    {| ri := ri st + 1; mag := mag'; A := <[i := mag']> (A st) |}
  else if (cs <=? Z.of_nat i)%Z && (Z.of_nat i <=? cs + xs)%Z then
    {| ri := ri st + 1; mag := mag st;
       A := <[i := fmul (mag st)
                     (nth (Z.to_nat (Z.of_nat i - cs)) (xistion xs) (Num 0))]>
              (A st) |}
  else
    {| ri := ri st + 1; mag := mag st; A := <[i := Num 0]> (A st) |}.

(** The unique half of [A], before mirroring. *)
Definition unique_half (xtype : Z) : MagLoop :=
  let init :=
    {| ri := offset N; mag := Num 0; A := replicate (Z.to_nat N) (Num 0) |} in
  if (xtype =? 0)%Z then for_loop 0 (Z.to_nat (u_samps N)) step_pow4 init
  else if (xtype =? 1)%Z then for_loop 0 (Z.to_nat (u_samps N)) step_rcos init
  else init.

(** [for (i = u_samps, j = j0; i < _N; i++, j++) A[i] = A[u_samps - j];] *)
Definition mirror_step (i : nat) (st : Z * list fp) : Z * list fp :=
  let '(j, a) := st in
  ((j + 1)%Z, <[i := nth (Z.to_nat (u_samps N - j)) a (Num 0)]> a).

Definition mirror (a : list fp) : list fp :=
  let j0 := if (Z.land N 1 =? 0)%Z then 1%Z else 2%Z in
  snd (for_loop (Z.to_nat (u_samps N)) (Z.to_nat (N - u_samps N)) mirror_step (j0, a)).

(** The magnitude array handed to [FIR::fir_fsamp]. *)
Definition magnitude (xtype : Z) : list fp := mirror (A (unique_half xtype)).
End Magnitude.

(** The two sample counts of a run, when the source gets as far as its
    loops with defined behaviour, and [None] otherwise:
    - [std::vector<float> A(_N)] and [_impulse.resize(2 * _N)] need
      [0 <= _N] and [2 * _N] in the range of [int];
    - the two casts to [int] need a finite value in the range of [int]
      (with [_runrate] zero the quotient is an infinity or a NaN), and the
      [int] additions must not overflow;
    - [std::vector<double> xistion(x_samps + 1)] needs [x_samps + 1] not to
      overflow and not to be negative (the constructor throws);
    - [_DD * _R] is an [int] product;
    - [c_samps + x_samps] is evaluated, in the raised-cosine loop, as soon
      as one index [i < u_samps] is not below [c_samps]. *)
Definition sizes (N DD Rcic : Z) (runrate cutoff : float32) (xtype : Z)
    (xbw : float32) : option (Z * Z) :=
  if (0 <=? N)%Z && in_int (2 * N) then
    cs ← c_samps N cutoff runrate;
    xs ← x_samps N xbw runrate;
    if (-1 <=? xs)%Z && (xs <? INT_MAX)%Z && in_int (DD * Rcic)
       && (negb (xtype =? 1)%Z || (u_samps N <=? cs)%Z || in_int (cs + xs))
    then Some (cs, xs) else None
  else None.

(** The inputs on which the source has a defined result. *)
Definition defined (N DD Rcic : Z) (runrate cutoff : float32) (xtype : Z)
    (xbw : float32) : bool :=
  match sizes N DD Rcic runrate cutoff xtype xbw with
  | Some _ => true
  | None => false
  end.

Section Impulse.
(** Modelled from the spec: [FIR::fir_fsamp] (wdsp/fir.cpp is not among the
    sources). It is the frequency-sampling transform that turns the
    magnitude array into time-domain taps, writing them into the caller's
    buffer in place; the value of tap [k] is left uninterpreted. *)
Variable fsamp_tap : Z -> list fp -> Z -> fp -> Z -> nat -> fp.

Definition fir_fsamp (c_impulse : list fp) (N : Z) (a : list fp)
    (rtype : Z) (scale : fp) (wintype : Z) : list fp :=
  imap (fun k _ => fsamp_tap N a rtype scale wintype k) c_impulse.

(** [ICFIR::icfir_impulse]; the result is the final content of [_impulse]. *)
Definition icfir_impulse (impulse : list fp) (N DD Rcic Pairs : Z)
    (runrate cicrate cutoff : float32) (xtype : Z) (xbw : float32) (rtype : Z)
    (scale : float32) (wintype : Z) : option (list fp) :=
  match sizes N DD Rcic runrate cutoff xtype xbw with
  | Some (cs, xs) =>
      let a :=
        magnitude N DD Rcic Pairs (ft cutoff cicrate) (L cicrate runrate)
          cs xs (float_value scale) xtype in
      Some (fir_fsamp (vector_resize (Z.to_nat (2 * N)) impulse) N a rtype
              (Num 1) wintype)
  | None => None
  end.
End Impulse.

End ICFIR.

(** ** sdrbase/dsp/spectrumvis.cpp *)

Module SpectrumVis.
Local Open Scope Z_scope.

(** [#define MAX_FFT_SIZE 4096] *)
Definition MAX_FFT_SIZE : Z := 4096.

(** [Complex] is [std::complex<Real>], a pair of floating-point values; a
    [Sample] is a fixed-point I/Q pair. *)
Definition Complex : Type := fp * fp.
Definition Sample : Type := Z * Z.

(** [GLSpectrumSettings::AveragingMode], the four enumerators the file uses. *)
Inductive AveragingMode : Set :=
  AvgModeNone | AvgModeMoving | AvgModeFixed | AvgModeMax.

Definition AveragingMode_eqb (a b : AveragingMode) : bool :=
  match a, b with
  | AvgModeNone, AvgModeNone | AvgModeMoving, AvgModeMoving
  | AvgModeFixed, AvgModeFixed | AvgModeMax, AvgModeMax => true
  | _, _ => false
  end.

(** [GLSpectrumSettings], with the members the file reads or reports. *)
Record GLSpectrumSettings := {
  m_fftSize : Z;
  m_fftOverlap : Z;
  m_fftWindow : Z;
  m_refLevel : R;
  m_powerRange : R;
  m_decay : Z;
  m_decayDivisor : Z;
  m_histogramStroke : Z;
  m_displayGridIntensity : Z;
  m_displayTraceIntensity : Z;
  m_displayWaterfall : bool;
  m_invertedWaterfall : bool;
  m_waterfallShare : R;
  m_displayMaxHold : bool;
  m_displayCurrent : bool;
  m_displayHistogram : bool;
  m_displayGrid : bool;
  m_averagingMode : AveragingMode;
  m_averagingIndex : Z;
  m_averagingValue : Z;
  m_linear : bool;
  m_ssb : bool;
  m_usb : bool;
  m_wsSpectrumAddress : string;
  m_wsSpectrumPort : Z
}.

(** [m_settings = settings; m_settings.m_fftSize = fftSize;
    m_settings.m_fftOverlap = overlapPercent;] *)
Definition with_fft (fftSize overlapPercent : Z) (g : GLSpectrumSettings) :
    GLSpectrumSettings :=
  {| m_fftSize := fftSize; m_fftOverlap := overlapPercent;
     m_fftWindow := m_fftWindow g; m_refLevel := m_refLevel g;
     m_powerRange := m_powerRange g; m_decay := m_decay g;
     m_decayDivisor := m_decayDivisor g; m_histogramStroke := m_histogramStroke g;
     m_displayGridIntensity := m_displayGridIntensity g;
     m_displayTraceIntensity := m_displayTraceIntensity g;
     m_displayWaterfall := m_displayWaterfall g;
     m_invertedWaterfall := m_invertedWaterfall g;
     m_waterfallShare := m_waterfallShare g; m_displayMaxHold := m_displayMaxHold g;
     m_displayCurrent := m_displayCurrent g;
     m_displayHistogram := m_displayHistogram g; m_displayGrid := m_displayGrid g;
     m_averagingMode := m_averagingMode g; m_averagingIndex := m_averagingIndex g;
     m_averagingValue := m_averagingValue g; m_linear := m_linear g;
     m_ssb := m_ssb g; m_usb := m_usb g;
     m_wsSpectrumAddress := m_wsSpectrumAddress g;
     m_wsSpectrumPort := m_wsSpectrumPort g |}.

(** What [GLSpectrumInterface::newSpectrum] receives. *)
Record GLFrame := { gl_spectrum : list fp; gl_fftSize : Z }.

(** What the web-socket sink's [newSpectrum] receives. *)
Record WSFrame := {
  wf_spectrum : list fp; wf_fftSize : Z; wf_centerFrequency : Z;
  wf_sampleRate : Z; wf_linear : bool; wf_ssb : bool; wf_usb : bool
}.

(** The web-socket sink [m_wsSpectrum]: its listening address and port,
    whether its socket is open, and the frames it was sent. *)
Record WSSpectrum := {
  ws_address : string; ws_port : Z; ws_opened : bool; ws_frames : list WSFrame
}.

(** Calls that acquire, release or rebuild a resource. *)
Inductive Event :=
| EvReleaseEngine (fftSize : Z) (inverse : bool) (sequence : Z)
| EvGetEngine (fftSize : Z) (inverse : bool)
| EvWindowCreate (function size : Z)
| EvAveragingResize (width depth : Z).

(** The collaborators the file consumes through their interfaces: the FFT
    engine factory and its engines, the window, the averaging-value table of
    [GLSpectrumSettings] and the three per-bin accumulators. None of them is
    defined in spectrumvis.cpp; they are left uninterpreted. *)
Class Collaborators := {
  FFTEngine : Type;
  (** [FFTFactory::getEngine]: the sequence number and the engine handed
      out, given the calls made so far. *)
  getEngine : Z -> bool -> list Event -> Z * option FFTEngine;
  (** bin [i] of [m_fft->out()] after [transform()] on the given input *)
  fft_out : FFTEngine -> list Complex -> nat -> Complex;
  (** [m_window.apply(in, out)] for the window last created *)
  window_apply : Z * Z -> list Complex -> list Complex;
  getAveragingValue : Z -> AveragingMode -> Z;
  MovingAverage2D : Type;
  ma_new : MovingAverage2D;
  ma_resize : Z -> Z -> MovingAverage2D -> MovingAverage2D;
  ma_storeAndGetAvg : fp -> Z -> MovingAverage2D -> fp * MovingAverage2D;
  ma_nextAverage : MovingAverage2D -> MovingAverage2D;
  FixedAverage2D : Type;
  fa_new : FixedAverage2D;
  fa_resize : Z -> Z -> FixedAverage2D -> FixedAverage2D;
  (** [Some avg] when the call returns true and sets [avg] *)
  fa_storeAndGetAvg : fp -> Z -> FixedAverage2D -> option fp * FixedAverage2D;
  fa_nextAverage : FixedAverage2D -> bool * FixedAverage2D;
  Max2D : Type;
  mx_new : Max2D;
  mx_resize : Z -> Z -> Max2D -> Max2D;
  mx_storeAndGetMax : fp -> Z -> Max2D -> option fp * Max2D;
  mx_nextMax : Max2D -> bool * Max2D
}.

(** [unsigned int] and [std::size_t] conversions. *)
Definition to_unsigned (z : Z) : Z := z mod 2 ^ 32.
Definition to_size_t (z : Z) : Z := z mod 2 ^ 64.

(** [log2f], [log10f]: minus infinity at zero, NaN below. *)
Definition log2f (x : fp) : fp := flog 2 x.
Definition log10f (x : fp) : fp := flog 10 x.

(** [const Real SpectrumVis::m_mult = (10.0f / log2f(10.0f));] *)
Definition m_mult : fp := fdiv (Num 10) (log2f (Num 10)).

(** [c.real() * c.real() + c.imag() * c.imag()] *)
Definition power (c : Complex) : fp := fadd (fmul c.1 c.1) (fmul c.2 c.2).

Section Pipeline.
Context `{Collaborators}.

Record SpectrumVis := {
  m_running : bool;
  m_fft : option FFTEngine;  (* the acquired transform engine, [None] for [nullptr] *)
  m_fftEngineSequence : Z;
  m_fftBuffer : list Complex;
  m_powerSpectrum : list fp;
  m_settings : GLSpectrumSettings;
  m_overlapSize : Z;
  m_refillSize : Z;
  m_fftBufferFill : Z;
  m_needMoreSamples : bool;
  m_scalef : R;
  m_glSpectrum : option (list GLFrame);  (* [None] for [nullptr], else the frames the display received *)
  m_wsSpectrum : WSSpectrum;
  m_movingAverage : MovingAverage2D;
  m_fixedAverage : FixedAverage2D;
  m_max : Max2D;
  m_centerFrequency : Z;
  m_sampleRate : Z;
  m_ofs : fp;
  m_powFFTDiv : R;
  m_window : Z * Z;  (* window function and size of the last [create] *)
  m_mutex : bool;  (* [true] while another thread holds the lock *)
  m_trace : list Event  (* calls made to the factory, the window and the accumulators *)
}.

(** Assignments to members. *)
Definition set_running (v_running : bool) (s : SpectrumVis) : SpectrumVis :=
  {| m_running := v_running; m_fft := m_fft s;
     m_fftEngineSequence := m_fftEngineSequence s; m_fftBuffer := m_fftBuffer s;
     m_powerSpectrum := m_powerSpectrum s; m_settings := m_settings s;
     m_overlapSize := m_overlapSize s; m_refillSize := m_refillSize s;
     m_fftBufferFill := m_fftBufferFill s; m_needMoreSamples := m_needMoreSamples s;
     m_scalef := m_scalef s; m_glSpectrum := m_glSpectrum s;
     m_wsSpectrum := m_wsSpectrum s; m_movingAverage := m_movingAverage s;
     m_fixedAverage := m_fixedAverage s; m_max := m_max s;
     m_centerFrequency := m_centerFrequency s; m_sampleRate := m_sampleRate s;
     m_ofs := m_ofs s; m_powFFTDiv := m_powFFTDiv s; m_window := m_window s;
     m_mutex := m_mutex s; m_trace := m_trace s |}.

Definition set_engine (v_fft : option FFTEngine) (v_fftEngineSequence : Z) (v_ofs : fp) (v_powFFTDiv : R)
    (s : SpectrumVis) : SpectrumVis :=
  {| m_running := m_running s; m_fft := v_fft;
     m_fftEngineSequence := v_fftEngineSequence; m_fftBuffer := m_fftBuffer s;
     m_powerSpectrum := m_powerSpectrum s; m_settings := m_settings s;
     m_overlapSize := m_overlapSize s; m_refillSize := m_refillSize s;
     m_fftBufferFill := m_fftBufferFill s; m_needMoreSamples := m_needMoreSamples s;
     m_scalef := m_scalef s; m_glSpectrum := m_glSpectrum s;
     m_wsSpectrum := m_wsSpectrum s; m_movingAverage := m_movingAverage s;
     m_fixedAverage := m_fixedAverage s; m_max := m_max s;
     m_centerFrequency := m_centerFrequency s; m_sampleRate := m_sampleRate s;
     m_ofs := v_ofs; m_powFFTDiv := v_powFFTDiv; m_window := m_window s;
     m_mutex := m_mutex s; m_trace := m_trace s |}.

Definition set_window (v_window : Z * Z) (s : SpectrumVis) : SpectrumVis :=
  {| m_running := m_running s; m_fft := m_fft s;
     m_fftEngineSequence := m_fftEngineSequence s; m_fftBuffer := m_fftBuffer s;
     m_powerSpectrum := m_powerSpectrum s; m_settings := m_settings s;
     m_overlapSize := m_overlapSize s; m_refillSize := m_refillSize s;
     m_fftBufferFill := m_fftBufferFill s; m_needMoreSamples := m_needMoreSamples s;
     m_scalef := m_scalef s; m_glSpectrum := m_glSpectrum s;
     m_wsSpectrum := m_wsSpectrum s; m_movingAverage := m_movingAverage s;
     m_fixedAverage := m_fixedAverage s; m_max := m_max s;
     m_centerFrequency := m_centerFrequency s; m_sampleRate := m_sampleRate s;
     m_ofs := m_ofs s; m_powFFTDiv := m_powFFTDiv s; m_window := v_window;
     m_mutex := m_mutex s; m_trace := m_trace s |}.

Definition set_overlap (v_overlapSize : Z) (v_refillSize : Z) (v_fftBufferFill : Z)
    (s : SpectrumVis) : SpectrumVis :=
  {| m_running := m_running s; m_fft := m_fft s;
     m_fftEngineSequence := m_fftEngineSequence s; m_fftBuffer := m_fftBuffer s;
     m_powerSpectrum := m_powerSpectrum s; m_settings := m_settings s;
     m_overlapSize := v_overlapSize; m_refillSize := v_refillSize;
     m_fftBufferFill := v_fftBufferFill; m_needMoreSamples := m_needMoreSamples s;
     m_scalef := m_scalef s; m_glSpectrum := m_glSpectrum s;
     m_wsSpectrum := m_wsSpectrum s; m_movingAverage := m_movingAverage s;
     m_fixedAverage := m_fixedAverage s; m_max := m_max s;
     m_centerFrequency := m_centerFrequency s; m_sampleRate := m_sampleRate s;
     m_ofs := m_ofs s; m_powFFTDiv := m_powFFTDiv s; m_window := m_window s;
     m_mutex := m_mutex s; m_trace := m_trace s |}.

Definition set_wsSpectrum (v_wsSpectrum : WSSpectrum) (s : SpectrumVis) : SpectrumVis :=
  {| m_running := m_running s; m_fft := m_fft s;
     m_fftEngineSequence := m_fftEngineSequence s; m_fftBuffer := m_fftBuffer s;
     m_powerSpectrum := m_powerSpectrum s; m_settings := m_settings s;
     m_overlapSize := m_overlapSize s; m_refillSize := m_refillSize s;
     m_fftBufferFill := m_fftBufferFill s; m_needMoreSamples := m_needMoreSamples s;
     m_scalef := m_scalef s; m_glSpectrum := m_glSpectrum s;
     m_wsSpectrum := v_wsSpectrum; m_movingAverage := m_movingAverage s;
     m_fixedAverage := m_fixedAverage s; m_max := m_max s;
     m_centerFrequency := m_centerFrequency s; m_sampleRate := m_sampleRate s;
     m_ofs := m_ofs s; m_powFFTDiv := m_powFFTDiv s; m_window := m_window s;
     m_mutex := m_mutex s; m_trace := m_trace s |}.

Definition set_settings (v_settings : GLSpectrumSettings) (s : SpectrumVis) : SpectrumVis :=
  {| m_running := m_running s; m_fft := m_fft s;
     m_fftEngineSequence := m_fftEngineSequence s; m_fftBuffer := m_fftBuffer s;
     m_powerSpectrum := m_powerSpectrum s; m_settings := v_settings;
     m_overlapSize := m_overlapSize s; m_refillSize := m_refillSize s;
     m_fftBufferFill := m_fftBufferFill s; m_needMoreSamples := m_needMoreSamples s;
     m_scalef := m_scalef s; m_glSpectrum := m_glSpectrum s;
     m_wsSpectrum := m_wsSpectrum s; m_movingAverage := m_movingAverage s;
     m_fixedAverage := m_fixedAverage s; m_max := m_max s;
     m_centerFrequency := m_centerFrequency s; m_sampleRate := m_sampleRate s;
     m_ofs := m_ofs s; m_powFFTDiv := m_powFFTDiv s; m_window := m_window s;
     m_mutex := m_mutex s; m_trace := m_trace s |}.

Definition set_trace (v_trace : list Event) (s : SpectrumVis) : SpectrumVis :=
  {| m_running := m_running s; m_fft := m_fft s;
     m_fftEngineSequence := m_fftEngineSequence s; m_fftBuffer := m_fftBuffer s;
     m_powerSpectrum := m_powerSpectrum s; m_settings := m_settings s;
     m_overlapSize := m_overlapSize s; m_refillSize := m_refillSize s;
     m_fftBufferFill := m_fftBufferFill s; m_needMoreSamples := m_needMoreSamples s;
     m_scalef := m_scalef s; m_glSpectrum := m_glSpectrum s;
     m_wsSpectrum := m_wsSpectrum s; m_movingAverage := m_movingAverage s;
     m_fixedAverage := m_fixedAverage s; m_max := m_max s;
     m_centerFrequency := m_centerFrequency s; m_sampleRate := m_sampleRate s;
     m_ofs := m_ofs s; m_powFFTDiv := m_powFFTDiv s; m_window := m_window s;
     m_mutex := m_mutex s; m_trace := v_trace |}.

Definition set_fftBuffer (v_fftBuffer : list Complex) (s : SpectrumVis) : SpectrumVis :=
  {| m_running := m_running s; m_fft := m_fft s;
     m_fftEngineSequence := m_fftEngineSequence s; m_fftBuffer := v_fftBuffer;
     m_powerSpectrum := m_powerSpectrum s; m_settings := m_settings s;
     m_overlapSize := m_overlapSize s; m_refillSize := m_refillSize s;
     m_fftBufferFill := m_fftBufferFill s; m_needMoreSamples := m_needMoreSamples s;
     m_scalef := m_scalef s; m_glSpectrum := m_glSpectrum s;
     m_wsSpectrum := m_wsSpectrum s; m_movingAverage := m_movingAverage s;
     m_fixedAverage := m_fixedAverage s; m_max := m_max s;
     m_centerFrequency := m_centerFrequency s; m_sampleRate := m_sampleRate s;
     m_ofs := m_ofs s; m_powFFTDiv := m_powFFTDiv s; m_window := m_window s;
     m_mutex := m_mutex s; m_trace := m_trace s |}.

Definition set_fill (v_fftBufferFill : Z) (v_needMoreSamples : bool)
    (s : SpectrumVis) : SpectrumVis :=
  {| m_running := m_running s; m_fft := m_fft s;
     m_fftEngineSequence := m_fftEngineSequence s; m_fftBuffer := m_fftBuffer s;
     m_powerSpectrum := m_powerSpectrum s; m_settings := m_settings s;
     m_overlapSize := m_overlapSize s; m_refillSize := m_refillSize s;
     m_fftBufferFill := v_fftBufferFill; m_needMoreSamples := v_needMoreSamples;
     m_scalef := m_scalef s; m_glSpectrum := m_glSpectrum s;
     m_wsSpectrum := m_wsSpectrum s; m_movingAverage := m_movingAverage s;
     m_fixedAverage := m_fixedAverage s; m_max := m_max s;
     m_centerFrequency := m_centerFrequency s; m_sampleRate := m_sampleRate s;
     m_ofs := m_ofs s; m_powFFTDiv := m_powFFTDiv s; m_window := m_window s;
     m_mutex := m_mutex s; m_trace := m_trace s |}.

Definition set_powerSpectrum (v_powerSpectrum : list fp) (s : SpectrumVis) : SpectrumVis :=
  {| m_running := m_running s; m_fft := m_fft s;
     m_fftEngineSequence := m_fftEngineSequence s; m_fftBuffer := m_fftBuffer s;
     m_powerSpectrum := v_powerSpectrum; m_settings := m_settings s;
     m_overlapSize := m_overlapSize s; m_refillSize := m_refillSize s;
     m_fftBufferFill := m_fftBufferFill s; m_needMoreSamples := m_needMoreSamples s;
     m_scalef := m_scalef s; m_glSpectrum := m_glSpectrum s;
     m_wsSpectrum := m_wsSpectrum s; m_movingAverage := m_movingAverage s;
     m_fixedAverage := m_fixedAverage s; m_max := m_max s;
     m_centerFrequency := m_centerFrequency s; m_sampleRate := m_sampleRate s;
     m_ofs := m_ofs s; m_powFFTDiv := m_powFFTDiv s; m_window := m_window s;
     m_mutex := m_mutex s; m_trace := m_trace s |}.

Definition set_movingAverage (v_movingAverage : MovingAverage2D)
    (s : SpectrumVis) : SpectrumVis :=
  {| m_running := m_running s; m_fft := m_fft s;
     m_fftEngineSequence := m_fftEngineSequence s; m_fftBuffer := m_fftBuffer s;
     m_powerSpectrum := m_powerSpectrum s; m_settings := m_settings s;
     m_overlapSize := m_overlapSize s; m_refillSize := m_refillSize s;
     m_fftBufferFill := m_fftBufferFill s; m_needMoreSamples := m_needMoreSamples s;
     m_scalef := m_scalef s; m_glSpectrum := m_glSpectrum s;
     m_wsSpectrum := m_wsSpectrum s; m_movingAverage := v_movingAverage;
     m_fixedAverage := m_fixedAverage s; m_max := m_max s;
     m_centerFrequency := m_centerFrequency s; m_sampleRate := m_sampleRate s;
     m_ofs := m_ofs s; m_powFFTDiv := m_powFFTDiv s; m_window := m_window s;
     m_mutex := m_mutex s; m_trace := m_trace s |}.

Definition set_fixedAverage (v_fixedAverage : FixedAverage2D)
    (s : SpectrumVis) : SpectrumVis :=
  {| m_running := m_running s; m_fft := m_fft s;
     m_fftEngineSequence := m_fftEngineSequence s; m_fftBuffer := m_fftBuffer s;
     m_powerSpectrum := m_powerSpectrum s; m_settings := m_settings s;
     m_overlapSize := m_overlapSize s; m_refillSize := m_refillSize s;
     m_fftBufferFill := m_fftBufferFill s; m_needMoreSamples := m_needMoreSamples s;
     m_scalef := m_scalef s; m_glSpectrum := m_glSpectrum s;
     m_wsSpectrum := m_wsSpectrum s; m_movingAverage := m_movingAverage s;
     m_fixedAverage := v_fixedAverage; m_max := m_max s;
     m_centerFrequency := m_centerFrequency s; m_sampleRate := m_sampleRate s;
     m_ofs := m_ofs s; m_powFFTDiv := m_powFFTDiv s; m_window := m_window s;
     m_mutex := m_mutex s; m_trace := m_trace s |}.

Definition set_max (v_max : Max2D) (s : SpectrumVis) : SpectrumVis :=
  {| m_running := m_running s; m_fft := m_fft s;
     m_fftEngineSequence := m_fftEngineSequence s; m_fftBuffer := m_fftBuffer s;
     m_powerSpectrum := m_powerSpectrum s; m_settings := m_settings s;
     m_overlapSize := m_overlapSize s; m_refillSize := m_refillSize s;
     m_fftBufferFill := m_fftBufferFill s; m_needMoreSamples := m_needMoreSamples s;
     m_scalef := m_scalef s; m_glSpectrum := m_glSpectrum s;
     m_wsSpectrum := m_wsSpectrum s; m_movingAverage := m_movingAverage s;
     m_fixedAverage := m_fixedAverage s; m_max := v_max;
     m_centerFrequency := m_centerFrequency s; m_sampleRate := m_sampleRate s;
     m_ofs := m_ofs s; m_powFFTDiv := m_powFFTDiv s; m_window := m_window s;
     m_mutex := m_mutex s; m_trace := m_trace s |}.

Definition set_glSpectrum (v_glSpectrum : option (list GLFrame))
    (s : SpectrumVis) : SpectrumVis :=
  {| m_running := m_running s; m_fft := m_fft s;
     m_fftEngineSequence := m_fftEngineSequence s; m_fftBuffer := m_fftBuffer s;
     m_powerSpectrum := m_powerSpectrum s; m_settings := m_settings s;
     m_overlapSize := m_overlapSize s; m_refillSize := m_refillSize s;
     m_fftBufferFill := m_fftBufferFill s; m_needMoreSamples := m_needMoreSamples s;
     m_scalef := m_scalef s; m_glSpectrum := v_glSpectrum;
     m_wsSpectrum := m_wsSpectrum s; m_movingAverage := m_movingAverage s;
     m_fixedAverage := m_fixedAverage s; m_max := m_max s;
     m_centerFrequency := m_centerFrequency s; m_sampleRate := m_sampleRate s;
     m_ofs := m_ofs s; m_powFFTDiv := m_powFFTDiv s; m_window := m_window s;
     m_mutex := m_mutex s; m_trace := m_trace s |}.

(** *** Publishing a frame *)

Definition gl_attached (s : SpectrumVis) : bool :=
  match m_glSpectrum s with Some _ => true | None => false end.

(** [v = m_settings.m_linear ? v/m_powFFTDiv : m_mult * log2f(v) + m_ofs;] *)
Definition display (s : SpectrumVis) (v : fp) : fp :=
  if m_linear (m_settings s) then fdiv v (Num (m_powFFTDiv s))
  else fadd (fmul m_mult (log2f v)) (m_ofs s).

(** The two [newSpectrum] calls that follow each completed spectrum. *)
Definition publish (s : SpectrumVis) : SpectrumVis :=
  let g := m_settings s in
  let s1 :=
    match m_glSpectrum s with
    | Some frames =>
        set_glSpectrum
          (Some (frames ++ [{| gl_spectrum := m_powerSpectrum s;
                               gl_fftSize := m_fftSize g |}])) s
    | None => s
    end in
  let ws := m_wsSpectrum s1 in
  if ws_opened ws then
    set_wsSpectrum
      {| ws_address := ws_address ws; ws_port := ws_port ws;
         ws_opened := ws_opened ws;
         ws_frames := ws_frames ws ++
           [{| wf_spectrum := m_powerSpectrum s; wf_fftSize := m_fftSize g;
               wf_centerFrequency := m_centerFrequency s;
               wf_sampleRate := m_sampleRate s; wf_linear := m_linear g;
               wf_ssb := m_ssb g; wf_usb := m_usb g |}] |} s1
  else s1.

(** [if (ready) { m_powerSpectrum[i] = transform(value); }] *)
Definition vstore_ready (s : SpectrumVis) (r : option fp) (i : nat) (P : list fp) :
    option (list fp) :=
  match r with
  | Some a => vstore i (display s a) P
  | None => Some P
  end.

(** *** [SpectrumVis::feed(const Complex *begin, unsigned int length)] *)

(** [if (i < length) { c = begin[i]; } else { c = Complex{0,0}; }] *)
Definition bin_input (begin : list Complex) (length : Z) (i : nat) : option Complex :=
  if Z.of_nat i <? length then begin !! i else Some (Num 0, Num 0).

Definition feed_bins (begin : list Complex) (length : Z) (s : SpectrumVis) :
    option SpectrumVis :=
  if negb (gl_attached s) && negb (ws_opened (m_wsSpectrum s)) then Some s
  else if m_mutex s then Some s
  else
    let n := Z.to_nat (to_unsigned (m_fftSize (m_settings s))) in
    match m_averagingMode (m_settings s) with
    | AvgModeNone =>
        P ← for_loop_opt 0 n (fun i P =>
               c ← bin_input begin length i;
               vstore i (display s (power c)) P) (m_powerSpectrum s);
        Some (publish (set_powerSpectrum P s))
    | AvgModeMoving =>
        r ← for_loop_opt 0 n (fun i '(P, ma) =>
               c ← bin_input begin length i;
               let '(v, ma') := ma_storeAndGetAvg (power c) (Z.of_nat i) ma in
               P' ← vstore i (display s v) P;
               Some (P', ma')) (m_powerSpectrum s, m_movingAverage s);
        let s1 := publish (set_powerSpectrum r.1 s) in
        Some (set_movingAverage (ma_nextAverage r.2) s1)
    | AvgModeFixed =>
        r ← for_loop_opt 0 n (fun i '(P, fa) =>
               c ← bin_input begin length i;
               let '(avg, fa') := fa_storeAndGetAvg (power c) (Z.of_nat i) fa in
               P' ← vstore_ready s avg i P;
               Some (P', fa')) (m_powerSpectrum s, m_fixedAverage s);
        let '(ready, fa') := fa_nextAverage r.2 in
        let s1 := set_fixedAverage fa' (set_powerSpectrum r.1 s) in
        Some (if ready then publish s1 else s1)
    | AvgModeMax =>
        r ← for_loop_opt 0 n (fun i '(P, mx) =>
               c ← bin_input begin length i;
               let '(max, mx') := mx_storeAndGetMax (power c) (Z.of_nat i) mx in
               P' ← vstore_ready s max i P;
               Some (P', mx')) (m_powerSpectrum s, m_max s);
        let '(ready, mx') := mx_nextMax r.2 in
        let s1 := set_max mx' (set_powerSpectrum r.1 s) in
        Some (if ready then publish s1 else s1)
    end.

(** *** [SpectrumVis::feed(cbegin, end, positiveOnly)] *)

(** [Complex(begin->real() / m_scalef, begin->imag() / m_scalef)] *)
Definition scale_sample (scalef : R) (x : Sample) : Complex :=
  (fdiv (Num (IZR x.1)) (Num scalef), fdiv (Num (IZR x.2)) (Num scalef)).

(** [*it++ = ...] for each of the given samples, starting at [it]. *)
Fixpoint write_samples (scalef : R) (it : nat) (xs : list Sample)
    (buf : list Complex) : option (list Complex) :=
  match xs with
  | [] => Some buf
  | x :: xs' =>
      buf' ← vstore it (scale_sample scalef x) buf;
      write_samples scalef (S it) xs' buf'
  end.

(** [std::copy(m_fftBuffer.begin() + m_refillSize, m_fftBuffer.end(),
    m_fftBuffer.begin());] *)
Definition advance (refill : Z) (buf : list Complex) : option (list Complex) :=
  if (0 <=? refill) && (refill <=? Z.of_nat (length buf)) then
    let moved := drop (Z.to_nat refill) buf in
    Some (moved ++ drop (length moved) buf)
  else None.

(** Averaging mode None: power, display transform and reordering. *)
Definition reorder_none (s : SpectrumVis) (positiveOnly : bool)
    (fftOut : nat -> Complex) (halfSize : nat) (i : nat) (P : list fp) :
    option (list fp) :=
  if positiveOnly then
    let v := display s (power (fftOut i)) in
    P1 ← vstore (i * 2) v P;
    vstore (i * 2 + 1) v P1
  else
    P1 ← vstore i (display s (power (fftOut (i + halfSize)%nat))) P;
    vstore (i + halfSize) (display s (power (fftOut i))) P1.

Definition reorder_moving (s : SpectrumVis) (positiveOnly : bool)
    (fftOut : nat -> Complex) (halfSize : nat) (i : nat)
    (st : list fp * MovingAverage2D) : option (list fp * MovingAverage2D) :=
  let '(P, ma) := st in
  if positiveOnly then
    let '(v, ma1) := ma_storeAndGetAvg (power (fftOut i)) (Z.of_nat i) ma in
    P1 ← vstore (i * 2) (display s v) P;
    P2 ← vstore (i * 2 + 1) (display s v) P1;
    Some (P2, ma1)
  else
    let '(v, ma1) :=
      ma_storeAndGetAvg (power (fftOut (i + halfSize)%nat))
        (Z.of_nat (i + halfSize)) ma in
    P1 ← vstore i (display s v) P;
    let '(v, ma2) := ma_storeAndGetAvg (power (fftOut i)) (Z.of_nat i) ma1 in
    P2 ← vstore (i + halfSize) (display s v) P1;
    Some (P2, ma2).

Definition reorder_fixed (s : SpectrumVis) (positiveOnly : bool)
    (fftOut : nat -> Complex) (halfSize : nat) (i : nat)
    (st : list fp * FixedAverage2D) : option (list fp * FixedAverage2D) :=
  let '(P, fa) := st in
  if positiveOnly then
    let '(avg, fa1) := fa_storeAndGetAvg (power (fftOut i)) (Z.of_nat i) fa in
    P1 ← vstore_ready s avg (i * 2) P;
    P2 ← vstore_ready s avg (i * 2 + 1) P1;
    Some (P2, fa1)
  else
    let '(avg, fa1) :=
      fa_storeAndGetAvg (power (fftOut (i + halfSize)%nat))
        (Z.of_nat (i + halfSize)) fa in
    P1 ← vstore_ready s avg i P;
    let '(avg, fa2) := fa_storeAndGetAvg (power (fftOut i)) (Z.of_nat i) fa1 in
    P2 ← vstore_ready s avg (i + halfSize) P1;
    Some (P2, fa2).

Definition reorder_max (s : SpectrumVis) (positiveOnly : bool)
    (fftOut : nat -> Complex) (halfSize : nat) (i : nat)
    (st : list fp * Max2D) : option (list fp * Max2D) :=
  let '(P, mx) := st in
  if positiveOnly then
    let '(max, mx1) := mx_storeAndGetMax (power (fftOut i)) (Z.of_nat i) mx in
    P1 ← vstore_ready s max (i * 2) P;
    P2 ← vstore_ready s max (i * 2 + 1) P1;
    Some (P2, mx1)
  else
    let '(max, mx1) :=
      mx_storeAndGetMax (power (fftOut (i + halfSize)%nat))
        (Z.of_nat (i + halfSize)) mx in
    P1 ← vstore_ready s max i P;
    let '(max, mx2) := mx_storeAndGetMax (power (fftOut i)) (Z.of_nat i) mx1 in
    P2 ← vstore_ready s max (i + halfSize) P1;
    Some (P2, mx2).

(** "extract power spectrum and reorder buckets", then publish as the
    averaging mode allows. *)
Definition spectrum (positiveOnly : bool) (fftOut : nat -> Complex)
    (s : SpectrumVis) : option SpectrumVis :=
  let halfSize := Z.to_nat (to_size_t (m_fftSize (m_settings s) ÷ 2)) in
  match m_averagingMode (m_settings s) with
  | AvgModeNone =>
      P ← for_loop_opt 0 halfSize (reorder_none s positiveOnly fftOut halfSize)
            (m_powerSpectrum s);
      Some (publish (set_powerSpectrum P s))
  | AvgModeMoving =>
      r ← for_loop_opt 0 halfSize (reorder_moving s positiveOnly fftOut halfSize)
            (m_powerSpectrum s, m_movingAverage s);
      let s1 := publish (set_powerSpectrum r.1 s) in
      Some (set_movingAverage (ma_nextAverage r.2) s1)
  | AvgModeFixed =>
      r ← for_loop_opt 0 halfSize (reorder_fixed s positiveOnly fftOut halfSize)
            (m_powerSpectrum s, m_fixedAverage s);
      let '(ready, fa') := fa_nextAverage r.2 in
      let s1 := set_fixedAverage fa' (set_powerSpectrum r.1 s) in
      Some (if ready then publish s1 else s1)
  | AvgModeMax =>
      r ← for_loop_opt 0 halfSize (reorder_max s positiveOnly fftOut halfSize)
            (m_powerSpectrum s, m_max s);
      let '(ready, mx') := mx_nextMax r.2 in
      let s1 := set_max mx' (set_powerSpectrum r.1 s) in
      Some (if ready then publish s1 else s1)
  end.

(** One complete frame: fill the buffer, window, transform, extract, slide. *)
Definition process_frame (needed : list Sample) (positiveOnly : bool)
    (s : SpectrumVis) : option SpectrumVis :=
  buf ← write_samples (m_scalef s) (Z.to_nat (m_fftBufferFill s)) needed
          (m_fftBuffer s);
  engine ← m_fft s;
  let fftOut := fft_out engine (window_apply (m_window s) buf) in
  s1 ← spectrum positiveOnly fftOut (set_fftBuffer buf s);
  buf' ← advance (m_refillSize s) buf;
  Some (set_fill (m_overlapSize s) false (set_fftBuffer buf' s1)).

(** The [while (begin < end)] loop over the samples still to consume. Each
    turn either completes a frame or stores what is left and ends. A turn
    that needs no sample consumes none, and the source then never leaves
    the loop: the fuel runs out and the result is [None]. *)
Fixpoint feed_loop (fuel : nat) (samples : list Sample) (positiveOnly : bool)
    (s : SpectrumVis) : option SpectrumVis :=
  match samples with
  | [] => Some s
  | _ :: _ =>
      match fuel with
      | O => None
      | S fuel' =>
          let todo := Z.of_nat (length samples) in
          let samplesNeeded := to_size_t (m_refillSize s - m_fftBufferFill s) in
          if samplesNeeded <=? todo then
            s1 ← process_frame (take (Z.to_nat samplesNeeded) samples) positiveOnly s;
            feed_loop fuel' (drop (Z.to_nat samplesNeeded) samples) positiveOnly s1
          else
            buf ← write_samples (m_scalef s) (Z.to_nat (m_fftBufferFill s)) samples
                    (m_fftBuffer s);
            Some (set_fill (to_size_t (m_fftBufferFill s + todo)) true
                    (set_fftBuffer buf s))
      end
  end.

Definition feed (samples : list Sample) (positiveOnly : bool) (s : SpectrumVis) :
    option SpectrumVis :=
  if negb (m_running s) then Some s
  else if negb (gl_attached s) && negb (ws_opened (m_wsSpectrum s)) then Some s
  else if m_mutex s then Some s
  else feed_loop (S (length samples)) samples positiveOnly s.

(** *** [start], [stop] *)

Definition start (s : SpectrumVis) : SpectrumVis := set_running true s.
Definition stop (s : SpectrumVis) : SpectrumVis := set_running false s.

(** *** [SpectrumVis::handleConfigureWSSpectrum]

    When the socket is open it is closed and opened again, which leaves it
    open. *)
Definition handleConfigureWSSpectrum (address : string) (port : Z)
    (s : SpectrumVis) : SpectrumVis :=
  let ws := m_wsSpectrum s in
  set_wsSpectrum
    {| ws_address := address; ws_port := port; ws_opened := ws_opened ws;
       ws_frames := ws_frames ws |} s.

(** *** [SpectrumVis::applySettings] *)

Definition clamp_fftSize (settings : GLSpectrumSettings) : Z :=
  if m_fftSize settings >? MAX_FFT_SIZE then MAX_FFT_SIZE
  else if m_fftSize settings <? 64 then 64
  else m_fftSize settings.

Definition clamp_overlap (settings : GLSpectrumSettings) : Z :=
  if m_fftOverlap settings >? 100 then 100
  else if m_fftOverlap settings <? 0 then 0
  else m_fftOverlap settings.

Definition log_event (e : Event) (s : SpectrumVis) : SpectrumVis :=
  set_trace (m_trace s ++ [e]) s.

Definition applySettings (settings : GLSpectrumSettings) (force : bool)
    (s : SpectrumVis) : SpectrumVis :=
  let fftSize := clamp_fftSize settings in
  let overlapPercent := clamp_overlap settings in
  let cur := m_settings s in
  let sizeChanged := negb (fftSize =? m_fftSize cur) in
  let s1 :=
    if sizeChanged || force then
      let s' :=
        match m_fft s with
        | Some _ => log_event (EvReleaseEngine (m_fftSize cur) false
                                 (m_fftEngineSequence s)) s
        | None => s
        end in
      let '(sequence, engine) := getEngine fftSize false (m_trace s') in
      set_engine engine sequence
        (fmul (Num 20) (log10f (fdiv (Num 1) (Num (IZR fftSize)))))
        (IZR (fftSize * fftSize)) (log_event (EvGetEngine fftSize false) s')
    else s in
  let s2 :=
    if sizeChanged || negb (m_fftWindow settings =? m_fftWindow cur) || force then
      set_window (m_fftWindow settings, fftSize)
        (log_event (EvWindowCreate (m_fftWindow settings) fftSize) s1)
    else s1 in
  let s3 :=
    if sizeChanged || negb (overlapPercent =? m_fftOverlap cur) || force then
      let overlapSize := (fftSize * overlapPercent) ÷ 100 in
      set_overlap overlapSize (fftSize - overlapSize) overlapSize s2
    else s2 in
  let s4 :=
    if sizeChanged
       || negb (m_averagingIndex settings =? m_averagingIndex cur)
       || negb (AveragingMode_eqb (m_averagingMode settings) (m_averagingMode cur))
       || force then
      let averagingValue :=
        to_unsigned (getAveragingValue (m_averagingIndex settings)
                       (m_averagingMode settings)) in
      let s' := log_event (EvAveragingResize fftSize averagingValue) s3 in
      set_max (mx_resize fftSize averagingValue (m_max s'))
        (set_fixedAverage (fa_resize fftSize averagingValue (m_fixedAverage s'))
           (set_movingAverage
              (ma_resize fftSize
                 (if averagingValue >? 1000 then 1000 else averagingValue)
                 (m_movingAverage s')) s'))
    else s3 in
  let s5 :=
    if negb (String.eqb (m_wsSpectrumAddress settings) (m_wsSpectrumAddress cur))
       || negb (m_wsSpectrumPort settings =? m_wsSpectrumPort cur)
       || force then
      handleConfigureWSSpectrum (m_wsSpectrumAddress settings)
        (m_wsSpectrumPort settings) s4
    else s4 in
  set_settings (with_fft fftSize overlapPercent settings) s5.

(** *** The settings-read path

    [webapiSpectrumSettingsGet] formats [m_settings] into the response. *)
Record SWGGLSpectrum := {
  r_fftSize : Z; r_fftOverlap : Z; r_fftWindow : Z; r_refLevel : R;
  r_powerRange : R; r_decay : Z; r_decayDivisor : Z; r_histogramStroke : Z;
  r_displayGridIntensity : Z; r_displayTraceIntensity : Z;
  r_displayWaterfall : Z; r_invertedWaterfall : Z; r_waterfallShare : R;
  r_displayMaxHold : Z; r_displayCurrent : Z; r_displayHistogram : Z;
  r_displayGrid : Z; r_averagingMode : AveragingMode; r_averagingValue : Z;
  r_linear : Z; r_ssb : Z; r_usb : Z; r_wsSpectrumPort : Z;
  r_wsSpectrumAddress : string
}.

Definition flag (b : bool) : Z := if b then 1 else 0.

Definition webapiFormatSpectrumSettings (settings : GLSpectrumSettings) :
    SWGGLSpectrum :=
  {| r_fftSize := m_fftSize settings; r_fftOverlap := m_fftOverlap settings;
     r_fftWindow := m_fftWindow settings; r_refLevel := m_refLevel settings;
     r_powerRange := m_powerRange settings; r_decay := m_decay settings;
     r_decayDivisor := m_decayDivisor settings;
     r_histogramStroke := m_histogramStroke settings;
     r_displayGridIntensity := m_displayGridIntensity settings;
     r_displayTraceIntensity := m_displayTraceIntensity settings;
     r_displayWaterfall := flag (m_displayWaterfall settings);
     r_invertedWaterfall := flag (m_invertedWaterfall settings);
     r_waterfallShare := m_waterfallShare settings;
     r_displayMaxHold := flag (m_displayMaxHold settings);
     r_displayCurrent := flag (m_displayCurrent settings);
     r_displayHistogram := flag (m_displayHistogram settings);
     r_displayGrid := flag (m_displayGrid settings);
     r_averagingMode := m_averagingMode settings;
     r_averagingValue :=
       getAveragingValue (m_averagingIndex settings) (m_averagingMode settings);
     r_linear := flag (m_linear settings); r_ssb := flag (m_ssb settings);
     r_usb := flag (m_usb settings);
     r_wsSpectrumPort := m_wsSpectrumPort settings;
     r_wsSpectrumAddress := m_wsSpectrumAddress settings |}.

Definition webapiSpectrumSettingsGet (s : SpectrumVis) : Z * SWGGLSpectrum :=
  (200, webapiFormatSpectrumSettings (m_settings s)).

(** *** [SpectrumVis::SpectrumVis(Real scalef)]

    The members as the initialiser list leaves them, then
    [applySettings(m_settings, true)]. The sizes the constructor does not
    initialise are assigned by that call. *)
Definition construct (scalef : R) (defaults : GLSpectrumSettings) : SpectrumVis :=
  applySettings defaults true
    {| m_running := true; m_fft := None; m_fftEngineSequence := 0;
       m_fftBuffer := replicate (Z.to_nat MAX_FFT_SIZE) (Num 0, Num 0);
       m_powerSpectrum := replicate (Z.to_nat MAX_FFT_SIZE) (Num 0);
       m_settings := defaults; m_overlapSize := 0; m_refillSize := 0;
       m_fftBufferFill := 0; m_needMoreSamples := false; m_scalef := scalef;
       m_glSpectrum := None;
       m_wsSpectrum := {| ws_address := ""; ws_port := 0; ws_opened := false;
                          ws_frames := [] |};
       m_movingAverage := ma_new; m_fixedAverage := fa_new; m_max := mx_new;
       m_centerFrequency := 0; m_sampleRate := 48000; m_ofs := Num 0;
       m_powFFTDiv := 1%R; m_window := (0, 0); m_mutex := false; m_trace := [] |}.

(** *** What [applySettings] establishes

    The relations between the members that hold in every pipeline that has
    been configured: the clamped sizes, the framing sizes derived from them,
    the normalisation divisor and the two vectors of [MAX_FFT_SIZE] entries. *)
Definition configured (s : SpectrumVis) : Prop :=
  let g := m_settings s in
  64 <= m_fftSize g <= MAX_FFT_SIZE /\ 0 <= m_fftOverlap g <= 100
  /\ m_overlapSize s = (m_fftSize g * m_fftOverlap g) ÷ 100
  /\ m_refillSize s = m_fftSize g - m_overlapSize s
  /\ m_powFFTDiv s = IZR (m_fftSize g * m_fftSize g)
  /\ Z.of_nat (length (m_fftBuffer s)) = MAX_FFT_SIZE
  /\ Z.of_nat (length (m_powerSpectrum s)) = MAX_FFT_SIZE.

(** The layout of a spectrum in averaging mode None: each bin holds the
    displayed power of the transform output bin the reordering assigns to
    it. *)
Definition reordered (s : SpectrumVis) (positiveOnly : bool)
    (fftOut : nat -> Complex) (halfSize : nat) (P : list fp) : Prop :=
  forall i : nat, (i < halfSize)%nat ->
    if positiveOnly then
      P !! (2 * i)%nat = Some (display s (power (fftOut i)))
      /\ P !! (2 * i + 1)%nat = Some (display s (power (fftOut i)))
    else
      P !! i = Some (display s (power (fftOut (i + halfSize)%nat)))
      /\ P !! (i + halfSize)%nat = Some (display s (power (fftOut i))).

End Pipeline.

(** *** A concrete pipeline

    Collaborators that do nothing (the engine returns its input, the
    accumulators hold no state), and a pipeline built on them with a
    display attached; the statements below are exercised on it. *)
#[local] Instance idle_collaborators : Collaborators := {|
  FFTEngine := unit;
  getEngine := fun _ _ _ => (0, Some tt);
  fft_out := fun _ input i => nth i input (Num 0, Num 0);
  window_apply := fun _ buf => buf;
  getAveragingValue := fun _ _ => 1;
  MovingAverage2D := unit; ma_new := tt;
  ma_resize := fun _ _ m => m;
  ma_storeAndGetAvg := fun v _ m => (v, m);
  ma_nextAverage := fun m => m;
  FixedAverage2D := unit; fa_new := tt;
  fa_resize := fun _ _ m => m;
  fa_storeAndGetAvg := fun v _ m => (Some v, m);
  fa_nextAverage := fun m => (true, m);
  Max2D := unit; mx_new := tt;
  mx_resize := fun _ _ m => m;
  mx_storeAndGetMax := fun v _ m => (Some v, m);
  mx_nextMax := fun m => (true, m)
|}.

Definition example_settings (fftSize overlap : Z) (linear : bool) :
    GLSpectrumSettings :=
  {| m_fftSize := fftSize; m_fftOverlap := overlap; m_fftWindow := 0;
     m_refLevel := 0%R; m_powerRange := 100%R; m_decay := 1;
     m_decayDivisor := 1; m_histogramStroke := 30;
     m_displayGridIntensity := 5; m_displayTraceIntensity := 50;
     m_displayWaterfall := true; m_invertedWaterfall := false;
     m_waterfallShare := 0.66%R; m_displayMaxHold := false;
     m_displayCurrent := true; m_displayHistogram := false;
     m_displayGrid := false; m_averagingMode := AvgModeNone;
     m_averagingIndex := 0; m_averagingValue := 1; m_linear := linear;
     m_ssb := false; m_usb := true; m_wsSpectrumAddress := "127.0.0.1";
     m_wsSpectrumPort := 8887 |}.

Definition example_pipeline (fftSize overlap : Z) (linear : bool) : SpectrumVis :=
  set_glSpectrum (Some []) (construct 1%R (example_settings fftSize overlap linear)).

End SpectrumVis.

(** * Properties *)

(** ** Loops and conversions *)

Lemma for_loop_0 {S : Type} (a : nat) (body : nat -> S -> S) (s : S) :
  for_loop a 0 body s = s.
Proof. reflexivity. Qed.

Lemma for_loop_S {S : Type} (a n : nat) (body : nat -> S -> S) (s : S) :
  for_loop a (Datatypes.S n) body s = body (a + n)%nat (for_loop a n body s).
Proof.
  unfold for_loop. rewrite seq_S, fold_left_app. reflexivity.
Qed.

Lemma for_each_app {S : Type} (body : nat -> S -> option S) (l1 l2 : list nat) (s : S) :
  for_each body (l1 ++ l2) s = for_each body l1 s ≫= for_each body l2.
Proof.
  revert s. induction l1 as [|i l1 IH]; intros s; [done|].
  simpl. destruct (body i s) as [s'|]; simpl; [apply IH | done].
Qed.

Lemma for_loop_opt_0 {S : Type} (a : nat) (body : nat -> S -> option S) (s : S) :
  for_loop_opt a 0 body s = Some s.
Proof. reflexivity. Qed.

Lemma for_loop_opt_S {S : Type} (a n : nat) (body : nat -> S -> option S) (s : S) :
  for_loop_opt a (Datatypes.S n) body s
  = for_loop_opt a n body s ≫= body (a + n)%nat.
Proof.
  unfold for_loop_opt. rewrite seq_S, for_each_app.
  destruct (for_each body (seq a n) s) as [s'|]; simpl; [|done].
  by destruct (body (a + n)%nat s').
Qed.

Lemma vstore_Some {T : Type} (i : nat) (x : T) (v : list T) :
  (i < length v)%nat -> vstore i x v = Some (<[i := x]> v).
Proof. intros Hi. unfold vstore. by case_decide. Qed.

Lemma vstore_inv {T : Type} (i : nat) (x : T) (v v' : list T) :
  vstore i x v = Some v' -> (i < length v)%nat /\ v' = <[i := x]> v.
Proof. unfold vstore. case_decide; [|done]. by intros [= <-]. Qed.

(** ** Floating-point values *)

Lemma is_zero_true (r : R) : r = 0%R -> is_zero r = true.
Proof. intros ->. unfold is_zero. by destruct (Req_dec_T 0 0). Qed.

Lemma is_zero_false (r : R) : r <> 0%R -> is_zero r = false.
Proof. intros Hr. unfold is_zero. by destruct (Req_dec_T r 0). Qed.

Lemma is_neg_true (r : R) : (r < 0)%R -> is_neg r = true.
Proof. intros Hr. unfold is_neg. by destruct (Rlt_dec r 0). Qed.

Lemma is_neg_false (r : R) : (0 <= r)%R -> is_neg r = false.
Proof. intros Hr. unfold is_neg. destruct (Rlt_dec r 0); [lra | done]. Qed.

Lemma fdiv_Num (a b : R) : b <> 0%R -> fdiv (Num a) (Num b) = Num (a / b).
Proof. intros Hb. cbn. by rewrite is_zero_false. Qed.

Lemma fpow_Num (a : R) (n : Z) :
  a <> 0%R -> fpow (Num a) n = Num (powerRZ a n).
Proof.
  intros Ha. unfold fpow. destruct (Z.eqb_spec n 0) as [->|_]; [done|].
  by rewrite is_zero_false.
Qed.

Lemma flt_Num (a b : R) : (a < b)%R -> flt (Num a) (Num b) = true.
Proof. intros H. cbn. by destruct (Rlt_dec a b). Qed.

Lemma flt_Num_false (a b : R) : (b <= a)%R -> flt (Num a) (Num b) = false.
Proof. intros H. cbn. destruct (Rlt_dec a b); [lra | done]. Qed.

Lemma fle_Num (a b : R) : (a <= b)%R -> fle (Num a) (Num b) = true.
Proof. intros H. cbn. by destruct (Rle_dec a b). Qed.

Lemma fle_Num_false (a b : R) : (b < a)%R -> fle (Num a) (Num b) = false.
Proof. intros H. cbn. destruct (Rle_dec a b); [lra | done]. Qed.

Lemma feq_Num (a b : R) : a = b -> feq (Num a) (Num b) = true.
Proof. intros ->. cbn. by destruct (Req_dec_T b b). Qed.

Lemma feq_Num_false (a b : R) : a <> b -> feq (Num a) (Num b) = false.
Proof. intros H. cbn. by destruct (Req_dec_T a b). Qed.

Lemma fmul_comm (x y : fp) : fmul x y = fmul y x.
Proof. destruct x, y; cbn; try done. by rewrite Rmult_comm. Qed.
(** ** Properties of [ICFIR::icfir_impulse] *)

Module ICFIR_Facts.
Import ICFIR.
Local Open Scope R_scope.

Lemma length_vector_resize (n : nat) (v : list fp) : length (vector_resize n v) = n.
Proof.
  unfold vector_resize. rewrite length_app, length_take, length_replicate. lia.
Qed.

Lemma land_1_mod (N : Z) : Z.land N 1 = (N mod 2)%Z.
Proof. change 1%Z with (Z.ones 1). by rewrite Z.land_ones. Qed.

Lemma u_samps_even (N : Z) :
  (0 <= N)%Z -> Z.land N 1 = 0%Z -> N = (2 * u_samps N)%Z.
Proof.
  intros HN H. rewrite land_1_mod in H. unfold u_samps.
  rewrite Z.quot_div_nonneg by lia. Z.div_mod_to_equations; lia.
Qed.

Lemma u_samps_odd (N : Z) :
  (0 <= N)%Z -> Z.land N 1 <> 0%Z -> N = (2 * u_samps N - 1)%Z.
Proof.
  intros HN H. rewrite land_1_mod in H. unfold u_samps.
  rewrite Z.quot_div_nonneg by lia. Z.div_mod_to_equations; lia.
Qed.

Lemma u_samps_le (N : Z) : (0 <= N)%Z -> (0 <= u_samps N <= N)%Z.
Proof.
  intros HN. unfold u_samps. rewrite Z.quot_div_nonneg by lia.
  Z.div_mod_to_equations; lia.
Qed.

(** *** The mirroring loop *)

Lemma mirror_loop_spec (N j0 : Z) (a : list fp) (n : nat) :
  let u := Z.to_nat (u_samps N) in
  let r := for_loop u n (mirror_step N) (j0, a) in
  (1 <= j0)%Z -> (j0 + Z.of_nat n <= u_samps N + 1)%Z ->
  (u + n <= length a)%nat ->
  r.1 = (j0 + Z.of_nat n)%Z /\ length r.2 = length a /\
  (forall k : nat, (k < u)%nat -> r.2 !! k = a !! k) /\
  (forall k : nat, (u <= k < u + n)%nat ->
     r.2 !! k = a !! Z.to_nat (u_samps N - j0 - Z.of_nat (k - u))).
Proof.
  intros u r Hj0. subst r. induction n as [|n IH]; intros Hn Hlen.
  - rewrite for_loop_0. simpl. split; [lia|]. split; [done|].
    split; [done|]. intros; lia.
  - rewrite for_loop_S.
    destruct IH as (Hj & Hl & Hlow & Hhigh); [lia | lia |].
    destruct (for_loop u n (mirror_step N) (j0, a)) as [j b] eqn:E.
    simpl in Hj, Hl, Hlow, Hhigh. subst j. cbn [mirror_step fst snd].
    split; [|split; [|split]].
    + lia.
    + by rewrite length_insert.
    + intros k Hk. rewrite list_lookup_insert_ne by lia. by apply Hlow.
    + intros k Hk. destruct (decide (k = u + n)%nat) as [->|Hne].
      * rewrite list_lookup_insert_eq by lia.
        rewrite nth_lookup.
        assert (Z.to_nat (u_samps N - (j0 + Z.of_nat n)) < u)%nat as Hlt by lia.
        rewrite (Hlow _ Hlt).
        replace (u_samps N - j0 - Z.of_nat (u + n - u))%Z
          with (u_samps N - (j0 + Z.of_nat n))%Z by lia.
        destruct (lookup_lt_is_Some_2 a
          (Z.to_nat (u_samps N - (j0 + Z.of_nat n)))) as [x Hx]; [lia|].
        by rewrite Hx.
      * rewrite list_lookup_insert_ne by lia. apply Hhigh. lia.
Qed.

(** After mirroring, the unique half is unchanged and entry [i] of the
    upper part is entry [N - 1 - i] of the unique half. *)
Lemma mirror_spec (N : Z) (a : list fp) :
  (0 <= N)%Z -> length a = Z.to_nat N ->
  length (mirror N a) = Z.to_nat N /\
  (forall k : nat, (k < Z.to_nat (u_samps N))%nat -> mirror N a !! k = a !! k) /\
  (forall k : nat, (Z.to_nat (u_samps N) <= k < Z.to_nat N)%nat ->
     mirror N a !! k = a !! (Z.to_nat N - 1 - k)%nat).
Proof.
  intros HN Hlen. unfold mirror.
  pose proof (u_samps_le N HN) as Hu.
  destruct (Z.eqb_spec (Z.land N 1) 0) as [He|Ho].
  - pose proof (u_samps_even N HN He) as HN2.
    destruct (mirror_loop_spec N 1 a (Z.to_nat (N - u_samps N)))
      as (_ & Hl & Hlow & Hhigh); [lia | lia | lia |].
    split; [congruence|]. split; [exact Hlow|].
    intros k Hk. rewrite Hhigh by lia. f_equal. lia.
  - pose proof (u_samps_odd N HN Ho) as HN2.
    destruct (mirror_loop_spec N 2 a (Z.to_nat (N - u_samps N)))
      as (_ & Hl & Hlow & Hhigh); [lia | lia | lia |].
    split; [congruence|]. split; [exact Hlow|].
    intros k Hk. rewrite Hhigh by lia. f_equal. lia.
Qed.

(** *** The magnitude loops *)

Lemma powerRZ_one (n : Z) : powerRZ 1 n = 1.
Proof.
  destruct n as [|p|p]; simpl; rewrite ?pow1, ?Rinv_1; reflexivity.
Qed.

Lemma fpow_one (n : Z) : fpow (Num 1) n = Num 1.
Proof.
  unfold fpow. destruct (n =? 0)%Z; [done|].
  rewrite is_zero_false by lra. by rewrite powerRZ_one.
Qed.

(** At [fn = 0] the in-band magnitude is [pow (1.0, Pairs) * local_scale]. *)
Lemma inband_dc (DD Rcic Pairs : Z) (lscale : fp) :
  inband DD Rcic Pairs lscale (Num 0) = fmul (Num 1) lscale.
Proof.
  unfold inband. rewrite feq_Num by done. by rewrite fpow_one.
Qed.

Lemma abs_neg_pos (x : R) : 0 <= x -> abs_neg (Num x) = Num x.
Proof. intros Hx. unfold abs_neg. by rewrite flt_Num_false. Qed.

Lemma abs_neg_Num (x : R) : abs_neg (Num x) = Num (Rabs x).
Proof.
  unfold abs_neg. cbn [flt]. destruct (Rlt_dec x 0).
  - cbn. by rewrite Rabs_left.
  - by rewrite Rabs_right by lra.
Qed.

(** The phase of table entry [k] is [k] steps of [delta] from the start. *)
Lemma xistion_loop_nth (n k : nat) (delta phs : R) :
  (k < n)%nat ->
  nth k (xistion_loop n (Num delta) (Num phs)) (Num 0)
  = Num (0.5 * (cos (phs + INR k * delta) + 1)).
Proof.
  revert k phs. induction n as [|n IH]; intros k phs Hk; [lia|].
  destruct k as [|k]; cbn [xistion_loop nth fadd fcos fmul].
  - simpl INR. do 3 f_equal. f_equal. lra.
  - rewrite IH by lia. rewrite S_INR. do 3 f_equal. f_equal. lra.
Qed.

(** The taper is one half in the middle of a transition of [2 k] samples. *)
Lemma xistion_midpoint (k : Z) :
  (0 < k)%Z -> nth (Z.to_nat k) (xistion (2 * k)) (Num 0) = Num 0.5.
Proof.
  intros Hk. unfold xistion.
  assert (IZR (2 * k) <> 0) as Hne by (apply not_0_IZR; lia).
  rewrite fdiv_Num by done. rewrite xistion_loop_nth by lia.
  rewrite INR_IZR_INZ, Z2Nat.id by lia. f_equal.
  replace (0 + IZR k * (PI / IZR (2 * k))) with (PI / 2).
  - rewrite cos_PI2. lra.
  - rewrite mult_IZR in *. assert (IZR k <> 0) by (apply not_0_IZR; lia).
    field. done.
Qed.

(** The first entry of the table is one. *)
Lemma xistion_first (xs : Z) :
  (0 <= xs)%Z -> nth 0 (xistion xs) (Num 0) = Num 1.
Proof.
  intros Hxs. unfold xistion.
  destruct (Z.to_nat (xs + 1)) as [|n] eqn:E; [lia|].
  cbn [xistion_loop nth fcos fadd fmul]. rewrite cos_0. f_equal. lra.
Qed.

Section Loops.
Variables (N DD Rcic Pairs : Z) (ft L : fp) (cs xs : Z) (scale : fp).

Lemma step_pow4_stores : stores (step_pow4 N DD Rcic Pairs ft L scale).
Proof. intros i st. split; [done|]. by eexists. Qed.

Lemma step_rcos_stores : stores (step_rcos N DD Rcic Pairs ft L cs xs scale).
Proof.
  intros i st. unfold step_rcos.
  repeat case_match; (split; [done|]); by eexists.
Qed.

Context (body : nat -> MagLoop -> MagLoop) (Hbody : stores body).

Lemma loop_ri (n : nat) (st : MagLoop) :
  ri (for_loop 0 n body st) = ri st + INR n.
Proof.
  induction n as [|n IH]; [rewrite for_loop_0; simpl; lra|].
  rewrite for_loop_S, S_INR. destruct (Hbody (0 + n)%nat (for_loop 0 n body st)) as [-> _].
  rewrite IH. lra.
Qed.

Lemma loop_length (n : nat) (st : MagLoop) :
  length (A (for_loop 0 n body st)) = length (A st).
Proof.
  induction n as [|n IH]; [done|].
  rewrite for_loop_S.
  destruct (Hbody (0 + n)%nat (for_loop 0 n body st)) as [_ (v & ->)].
  by rewrite length_insert.
Qed.

(** Entry [i] is final once iteration [i] has run. *)
Lemma loop_lookup (n i : nat) (st : MagLoop) :
  (i < n)%nat ->
  A (for_loop 0 n body st) !! i = A (for_loop 0 (S i) body st) !! i.
Proof.
  intros Hi. induction n as [|n IH]; [lia|].
  destruct (decide (i = n)) as [->|Hne]; [done|].
  rewrite for_loop_S.
  destruct (Hbody (0 + n)%nat (for_loop 0 n body st)) as [_ (v & ->)].
  rewrite list_lookup_insert_ne by lia. apply IH. lia.
Qed.
End Loops.

Section Entries.
Variables (N DD Rcic Pairs : Z) (ft L : fp) (cs xs : Z) (scale : fp).

Let init : MagLoop :=
  {| ri := offset N; mag := Num 0; A := replicate (Z.to_nat N) (Num 0) |}.
Let pow4 := step_pow4 N DD Rcic Pairs ft L scale.
Let rcos := step_rcos N DD Rcic Pairs ft L cs xs scale.
Let lscale := local_scale DD Rcic Pairs ft scale.
Let fn (i : nat) : fp := fn_of N L (offset N + INR i).
Let Hpow4 : stores pow4 := step_pow4_stores N DD Rcic Pairs ft L scale.
Let Hrcos : stores rcos := step_rcos_stores N DD Rcic Pairs ft L cs xs scale.

Lemma unique_half_length (xtype : Z) :
  length (A (unique_half N DD Rcic Pairs ft L cs xs scale xtype)) = Z.to_nat N.
Proof.
  unfold unique_half. repeat case_match.
  - rewrite (loop_length _ Hpow4). apply length_replicate.
  - rewrite (loop_length _ Hrcos). apply length_replicate.
  - apply length_replicate.
Qed.

(** Fourth-power rolloff: the recurrence on [mag], which is also the entry. *)
Lemma pow4_mag (i : nat) :
  mag (for_loop 0 (S i) pow4 init) =
    if fle (fn i) ft then inband DD Rcic Pairs lscale (fn i)
    else fmul (mag (for_loop 0 i pow4 init))
           (fdiv (fmul (fmul (fmul ft ft) ft) ft)
              (fmul (fmul (fmul (fn i) (fn i)) (fn i)) (fn i))).
Proof.
  rewrite for_loop_S. unfold pow4 at 1, step_pow4. cbn [mag].
  fold pow4. rewrite (loop_ri _ Hpow4). reflexivity.
Qed.

Lemma pow4_entry (n i : nat) :
  (i < n)%nat -> (i < Z.to_nat N)%nat ->
  A (for_loop 0 n pow4 init) !! i = Some (mag (for_loop 0 (S i) pow4 init)).
Proof.
  intros Hi HN. rewrite (loop_lookup _ Hpow4) by done.
  rewrite for_loop_S. unfold pow4 at 1 3, step_pow4. cbn [A mag].
  apply list_lookup_insert_eq.
  fold pow4. rewrite (loop_length _ Hpow4). subst init. simpl.
  by rewrite length_replicate.
Qed.

(** Raised cosine: in-band entries. *)
Lemma rcos_inband (n i : nat) :
  (i < n)%nat -> (i < Z.to_nat N)%nat -> (Z.of_nat i < cs)%Z ->
  A (for_loop 0 n rcos init) !! i = Some (inband DD Rcic Pairs lscale (fn i))
  /\ mag (for_loop 0 (S i) rcos init) = inband DD Rcic Pairs lscale (fn i).
Proof.
  intros Hi HN Hcs. rewrite (loop_lookup _ Hrcos) by done.
  rewrite for_loop_S. unfold rcos at 1 3, step_rcos.
  destruct (Z.ltb_spec (Z.of_nat (0 + i)) cs) as [_|]; [|simpl in *; lia].
  cbn [A mag]. fold rcos. rewrite (loop_ri _ Hrcos).
  split; [|done]. apply list_lookup_insert_eq.
  rewrite (loop_length _ Hrcos). subst init. simpl.
  by rewrite length_replicate.
Qed.

(** Raised cosine: [mag] is frozen once the pass band is left. *)
Lemma rcos_mag_frozen (c n : nat) :
  (cs <= Z.of_nat c)%Z -> (c <= n)%nat ->
  mag (for_loop 0 n rcos init) = mag (for_loop 0 c rcos init).
Proof.
  intros Hc Hn. induction n as [|n IH].
  - by replace c with 0%nat by lia.
  - destruct (decide (c = S n)) as [->|Hne]; [done|].
    rewrite for_loop_S, <- IH by lia. unfold rcos at 1, step_rcos.
    destruct (Z.ltb_spec (Z.of_nat (0 + n)) cs) as [|_]; [simpl in *; lia|].
    by case_match.
Qed.

(** Raised cosine: entries of the transition region. *)
Lemma rcos_transition (n i : nat) :
  (i < n)%nat -> (i < Z.to_nat N)%nat ->
  (cs <= Z.of_nat i <= cs + xs)%Z ->
  A (for_loop 0 n rcos init) !! i =
    Some (fmul (mag (for_loop 0 i rcos init))
            (nth (Z.to_nat (Z.of_nat i - cs)) (xistion xs) (Num 0))).
Proof.
  intros Hi HN Hcs. rewrite (loop_lookup _ Hrcos) by done.
  rewrite for_loop_S. unfold rcos at 1, step_rcos.
  destruct (Z.ltb_spec (Z.of_nat (0 + i)) cs) as [|_]; [simpl in *; lia|].
  destruct (Z.leb_spec cs (Z.of_nat (0 + i))) as [_|]; [|simpl in *; lia].
  destruct (Z.leb_spec (Z.of_nat (0 + i)) (cs + xs)) as [_|]; [|simpl in *; lia].
  cbn [andb A]. fold rcos. apply list_lookup_insert_eq.
  rewrite (loop_length _ Hrcos). subst init. simpl.
  by rewrite length_replicate.
Qed.
End Entries.
(** *** Numeric facts used at concrete design points *)

(** Side conditions on closed integer terms. *)
Ltac closed_arith := first [lia | vm_compute; lia | vm_compute; done].

Lemma PI_gt_3 : 3 < PI.
Proof. pose proof PI2_3_2. lra. Qed.

Lemma sin_lb_3_20 : 1 / 8 < sin_lb (3 / 20).
Proof.
  unfold sin_lb, sin_approx, sum_f_R0, sin_term.
  cbn [Nat.mul Nat.add pow].
  rewrite !INR_IZR_INZ.
  replace (Z.of_nat (fact 1)) with 1%Z by reflexivity.
  replace (Z.of_nat (fact 3)) with 6%Z by reflexivity.
  replace (Z.of_nat (fact 5)) with 120%Z by reflexivity.
  replace (Z.of_nat (fact 7)) with 5040%Z by reflexivity.
  lra.
Qed.

Lemma sin_PI_20 : 1 / 8 < sin (PI / 20).
Proof.
  pose proof PI_gt_3. pose proof PI_4.
  apply Rlt_trans with (sin (3 / 20)).
  - apply Rlt_le_trans with (sin_lb (3 / 20)); [apply sin_lb_3_20|].
    apply SIN; lra.
  - apply sin_increasing_1; lra.
Qed.

Lemma offset_even (N : Z) :
  (0 <= N)%Z -> Z.land N 1 = 0%Z -> offset N = 0.5.
Proof.
  intros HN He. rewrite land_1_mod in He. unfold offset.
  rewrite !Z.quot_div_nonneg by lia.
  replace ((N + 1) / 2 - N / 2)%Z with 0%Z; [lra|].
  Z.div_mod_to_equations; lia.
Qed.

Lemma offset_odd (N : Z) :
  (0 <= N)%Z -> Z.land N 1 <> 0%Z -> offset N = 0.
Proof.
  intros HN Ho. rewrite land_1_mod in Ho. unfold offset.
  rewrite !Z.quot_div_nonneg by lia.
  replace ((N + 1) / 2 - N / 2)%Z with 1%Z; [lra|].
  Z.div_mod_to_equations; lia.
Qed.

(** *** The binary32 conversions *)

(** The value of a binary32 quotient of two small integers. *)
Ltac float_quotient :=
  unfold ft, L;
  match goal with
  | |- float_value ?q = _ =>
      let v := eval vm_compute in q in change q with v
  end;
  cbn;
  repeat match goal with
  | |- context [(2 ^ ?e)%Z] =>
      let v := eval vm_compute in (2 ^ e)%Z in change (2 ^ e)%Z with v
  end;
  f_equal; lra.

Lemma ft_quarter : ft (float_of_int 12000) (float_of_int 48000) = Num (1 / 4).
Proof. float_quotient. Qed.

Lemma ft_half : ft (float_of_int 24000) (float_of_int 48000) = Num (1 / 2).
Proof. float_quotient. Qed.

Lemma ft_7_16 : ft (float_of_int 21000) (float_of_int 48000) = Num (7 / 16).
Proof. float_quotient. Qed.

Lemma L_one : L (float_of_int 48000) (float_of_int 48000) = Num 1.
Proof. float_quotient. Qed.

Lemma scale_8 : float_value (float_div (float_of_int 1) (float_of_int 8)) = Num (1 / 8).
Proof. float_quotient. Qed.

Lemma scale_128 :
  float_value (float_div (float_of_int 1) (float_of_int 128)) = Num (1 / 128).
Proof. float_quotient. Qed.

(** The sample counts follow the binary32 rounding of the source: the
    quotient [12150f / 44100f] is just below [27 / 98], so that the product
    with 98 is truncated to 26, and likewise 21 for [6600f / 44100f * 147]. *)
Lemma band_samps_rounds :
  band_samps 98 (float_of_int 12150) (float_of_int 44100) = Some 26%Z
  /\ c_samps 98 (float_of_int 12150) (float_of_int 44100) = Some 26%Z
  /\ x_samps 147 (float_of_int 6600) (float_of_int 44100) = Some 21%Z.
Proof. repeat split; reflexivity. Qed.

(** With a run rate of zero the quotient is an infinity or a NaN, the cast
    to [int] is undefined and the function has no defined result. *)
Lemma undefined_at_zero_runrate (N DD Rcic : Z) (cutoff : float32) (xtype : Z)
    (xbw : float32) :
  defined N DD Rcic (float_of_int 0) cutoff xtype xbw = false.
Proof.
  unfold defined, sizes. destruct ((0 <=? N)%Z && in_int (2 * N)); [|done].
  assert (c_samps N cutoff (float_of_int 0) = None) as ->; [|done].
  unfold c_samps, band_samps.
  change (float_of_int 0) with (S754_zero false).
  assert (float_to_int
            (float_mul (float_div cutoff (S754_zero false)) (float_of_int N))
          = None) as ->; [|done].
  destruct cutoff as [s|s| |s m e], (float_of_int N) as [s'|s'| |s' m' e'];
    reflexivity.
Qed.

(** *** Finite values of the gain and of the in-band magnitude *)

Lemma peak_gain_Num (DD Rcic : Z) (f : R) :
  (0 < DD * Rcic)%Z -> (0 < Rcic)%Z ->
  0 < PI * f / IZR Rcic < PI -> 0 < PI * IZR DD * f < PI ->
  exists g : R, peak_gain DD Rcic (Num f) = Num g /\ 0 < g
    /\ g = IZR (DD * Rcic) * sin (PI * f / IZR Rcic) / sin (PI * IZR DD * f).
Proof.
  intros Hc HR Hx Hy. unfold peak_gain.
  assert (0 < sin (PI * f / IZR Rcic)) by (apply sin_gt_0; lra).
  assert (0 < sin (PI * IZR DD * f)) by (apply sin_gt_0; lra).
  assert (0 < IZR (DD * Rcic)) by (apply IZR_lt; lia).
  assert (0 < IZR Rcic) by (apply IZR_lt; lia).
  assert (0 < IZR (DD * Rcic) * sin (PI * f / IZR Rcic) / sin (PI * IZR DD * f)).
  { apply Rdiv_lt_0_compat; [|done]. by apply Rmult_lt_0_compat. }
  cbn [fmul]. rewrite (fdiv_Num (PI * f)) by lra. cbn [fsin fmul].
  rewrite fdiv_Num by lra. rewrite abs_neg_pos by lra.
  eexists. split; [reflexivity|]. split; [done | reflexivity].
Qed.

Lemma local_scale_Num (DD Rcic Pairs : Z) (f sc : R) :
  (0 < DD * Rcic)%Z -> (0 < Rcic)%Z ->
  0 < PI * f / IZR Rcic < PI -> 0 < PI * IZR DD * f < PI -> 0 < sc ->
  exists l : R, local_scale DD Rcic Pairs (Num f) (Num sc) = Num l /\ 0 < l.
Proof.
  intros Hc HR Hx Hy Hsc.
  destruct (peak_gain_Num DD Rcic f Hc HR Hx Hy) as (g & Hg & Hpos & _).
  unfold local_scale. rewrite Hg, fpow_Num by lra.
  assert (0 < powerRZ g Pairs) by by apply powerRZ_lt.
  rewrite fdiv_Num by lra. eexists. split; [reflexivity|].
  by apply Rdiv_lt_0_compat.
Qed.

Lemma inband_Num (DD Rcic Pairs : Z) (l x : R) :
  (0 < DD * Rcic)%Z -> (0 < Rcic)%Z -> 0 < x ->
  0 < PI * IZR DD * x < PI -> 0 < PI * x / IZR Rcic < PI -> 0 < l ->
  exists v : R, inband DD Rcic Pairs (Num l) (Num x) = Num v /\ 0 < v.
Proof.
  intros Hc HR Hx Hn Hd Hl. unfold inband.
  assert (0 < sin (PI * IZR DD * x)) by (apply sin_gt_0; lra).
  assert (0 < sin (PI * x / IZR Rcic)) by (apply sin_gt_0; lra).
  assert (0 < IZR (DD * Rcic)) by (apply IZR_lt; lia).
  assert (0 < IZR Rcic) by (apply IZR_lt; lia).
  assert (0 < IZR (DD * Rcic) * sin (PI * x / IZR Rcic))
    by by apply Rmult_lt_0_compat.
  assert (0 < sin (PI * IZR DD * x) / (IZR (DD * Rcic) * sin (PI * x / IZR Rcic)))
    by by apply Rdiv_lt_0_compat.
  rewrite feq_Num_false by lra. cbn [fmul].
  rewrite (fdiv_Num (PI * x)) by lra. cbn [fsin fmul].
  rewrite fdiv_Num by lra. rewrite abs_neg_pos by lra.
  rewrite fpow_Num by lra. cbn [fmul].
  eexists. split; [reflexivity|].
  apply Rmult_lt_0_compat; [by apply powerRZ_lt | done].
Qed.

(** *** The mirroring rule (C1) *)

(** Every entry of the upper part of the magnitude array equals the entry
    of the unique half at the reflected index [N - 1 - i]; this holds for
    odd and for even [N]. *)
Lemma magnitude_mirror (N DD Rcic Pairs : Z) (ft L : fp) (cs xs : Z) (scale : fp)
    (xtype : Z) (i : nat) :
  let a := magnitude N DD Rcic Pairs ft L cs xs scale xtype in
  (0 <= N)%Z -> (Z.to_nat (u_samps N) <= i < Z.to_nat N)%nat ->
  is_Some (a !! i) /\ a !! i = a !! (Z.to_nat N - 1 - i)%nat.
Proof.
  intros a HN Hi. subst a. unfold magnitude.
  pose proof (u_samps_le N HN) as Hu.
  destruct (mirror_spec N
    (A (unique_half N DD Rcic Pairs ft L cs xs scale xtype)) HN
    (unique_half_length _ _ _ _ _ _ _ _ _ _)) as (Hl & Hlow & Hhigh).
  split; [apply lookup_lt_is_Some_2; lia|].
  rewrite (Hhigh i Hi). symmetry. apply Hlow.
  assert (N = 2 * u_samps N \/ N = 2 * u_samps N - 1)%Z as [HN2|HN2]; [|lia..].
  destruct (Z.eq_dec (Z.land N 1) 0%Z);
    [left; by apply u_samps_even | right; by apply u_samps_odd].
Qed.

Lemma magnitude_low (N DD Rcic Pairs : Z) (ft L : fp) (cs xs : Z) (scale : fp)
    (xtype : Z) (i : nat) :
  (0 <= N)%Z -> (i < Z.to_nat (u_samps N))%nat ->
  magnitude N DD Rcic Pairs ft L cs xs scale xtype !! i
  = A (unique_half N DD Rcic Pairs ft L cs xs scale xtype) !! i.
Proof.
  intros HN Hi. unfold magnitude.
  by apply (mirror_spec N _ HN (unique_half_length _ _ _ _ _ _ _ _ _ _)).
Qed.

(** C1, as corrected: for every even filter order [N], each mirrored entry
    of the magnitude array, at an index [i >= N/2], equals the unique-half
    entry at index [N - 1 - i]; that is [A[N-1] = A[0]], [A[N-2] = A[1]],
    and so on. It holds whatever the cutoff, the rates, the sample counts
    and the scale are, also where entries are infinities or NaN. *)
Theorem magnitude_mirror_even (N DD Rcic Pairs : Z) (ft L : fp) (cs xs : Z)
    (scale : fp) (xtype i : Z) :
  let a := magnitude N DD Rcic Pairs ft L cs xs scale xtype in
  (0 <= N)%Z -> Z.even N = true -> (N / 2 <= i < N)%Z ->
  is_Some (a !! Z.to_nat i) /\ a !! Z.to_nat i = a !! Z.to_nat (N - 1 - i).
Proof.
  intros a HN He Hi.
  assert (u_samps N = N / 2)%Z as Hu.
  { unfold u_samps. rewrite Z.quot_div_nonneg by lia.
    rewrite Zeven_bool_iff, Zeven_ex_iff in He. destruct He as [m ->].
    Z.div_mod_to_equations; lia. }
  rewrite <- Hu in Hi. pose proof (u_samps_le N HN).
  destruct (magnitude_mirror N DD Rcic Pairs ft L cs xs scale
              xtype (Z.to_nat i) HN) as [Hs Heq]; [lia|].
  split; [exact Hs|]. subst a. rewrite Heq. f_equal. lia.
Qed.

Lemma magnitude_mirror_even_witness :
  let a :=
    magnitude 4 1 8 4 (ft (float_of_int 12000) (float_of_int 48000))
      (L (float_of_int 48000) (float_of_int 48000)) 1 0
      (float_value (float_div (float_of_int 1) (float_of_int 8))) 0 in
  is_Some (a !! Z.to_nat 3) /\ a !! Z.to_nat 3 = a !! Z.to_nat (4 - 1 - 3).
Proof.
  apply (magnitude_mirror_even 4 1 8 4
           (ft (float_of_int 12000) (float_of_int 48000))
           (L (float_of_int 48000) (float_of_int 48000)) 1 0
           (float_value (float_div (float_of_int 1) (float_of_int 8))) 0 3);
    [lia | reflexivity | change (4 / 2)%Z with 2%Z; lia].
Defined.

(** C1, as stated, fails: for the even order [N = 4] (fourth-power rolloff,
    DD = 1, R = 8, four pairs, cutoff at a quarter of the rate, for which
    the source derives [c_samps = 1] and [x_samps = 0]) the entry [A[N-1]]
    differs from [A[1]]. *)
Lemma magnitude_mirror_documented_rule_fails :
  let a :=
    magnitude 4 1 8 4 (ft (float_of_int 12000) (float_of_int 48000))
      (L (float_of_int 48000) (float_of_int 48000)) 1 0
      (float_value (float_div (float_of_int 1) (float_of_int 8))) 0 in
  sizes 4 1 8 (float_of_int 48000) (float_of_int 12000) 0 (float_of_int 0)
  = Some (1, 0)%Z
  /\ Z.even 4 = true /\ a !! Z.to_nat (4 - 1) <> a !! 1%nat.
Proof.
  intros a. split; [reflexivity|]. split; [reflexivity|].
  subst a. rewrite ft_quarter, L_one, scale_8.
  destruct (magnitude_mirror 4 1 8 4 (Num (1 / 4)) (Num 1) 1 0 (Num (1 / 8)) 0 3)
    as [_ H3]; [closed_arith..|].
  change (Z.to_nat (4 - 1)) with 3%nat. rewrite H3.
  change (Z.to_nat 4 - 1 - 3)%nat with 0%nat.
  rewrite !magnitude_low by closed_arith.
  unfold unique_half. change (0 =? 0)%Z with true. cbn iota.
  change (Z.to_nat (u_samps 4)) with 2%nat.
  rewrite !pow4_entry by closed_arith.
  rewrite (pow4_mag _ _ _ _ _ _ _ 1), (pow4_mag _ _ _ _ _ _ _ 0).
  assert (fn_of 4 (Num 1) (offset 4 + INR 0) = Num (1 / 8)) as ->.
  { unfold fn_of. cbn [fmul]. rewrite fdiv_Num by lra.
    rewrite offset_even by closed_arith. simpl INR. f_equal. lra. }
  assert (fn_of 4 (Num 1) (offset 4 + INR 1) = Num (3 / 8)) as ->.
  { unfold fn_of. cbn [fmul]. rewrite fdiv_Num by lra.
    rewrite offset_even by closed_arith. simpl INR. f_equal. lra. }
  rewrite fle_Num by lra. rewrite fle_Num_false by lra.
  pose proof PI_RGT_0. pose proof PI_gt_3.
  destruct (local_scale_Num 1 8 4 (1 / 4) (1 / 8)) as (l & -> & Hl);
    [lia | lia | simpl; lra | simpl; lra | lra |].
  destruct (inband_Num 1 8 4 l (1 / 8)) as (m & -> & Hm);
    [lia | lia | lra | simpl; lra | simpl; lra | done |].
  cbn [fmul]. rewrite fdiv_Num by lra. cbn [fmul].
  intros [= Heq]. lra.
Qed.

(** *** The magnitude at zero frequency (C2) *)

(** Wherever the normalized frequency of an in-band sample is zero, the
    entry is [pow (1.0, Pairs) * local_scale], whatever the CIC is. *)
Lemma magnitude_dc (N DD Rcic Pairs : Z) (ft L : fp) (cs xs : Z) (scale : fp)
    (xtype : Z) (i : nat) :
  (0 <= N)%Z -> (i < Z.to_nat (u_samps N))%nat ->
  fn_of N L (offset N + INR i) = Num 0 ->
  (xtype = 0%Z /\ fle (Num 0) ft = true)
  \/ (xtype = 1%Z /\ (Z.of_nat i < cs)%Z) ->
  magnitude N DD Rcic Pairs ft L cs xs scale xtype !! i
  = Some (fmul (Num 1) (local_scale DD Rcic Pairs ft scale)).
Proof.
  intros HN Hi Hfn Hband. pose proof (u_samps_le N HN) as Hu.
  rewrite magnitude_low by done. unfold unique_half.
  destruct Hband as [[-> Hft] | [-> Hcs]]; cbn [Z.eqb Pos.eqb].
  - rewrite pow4_entry by lia. rewrite pow4_mag, Hfn, Hft.
    by rewrite inband_dc.
  - destruct (rcos_inband N DD Rcic Pairs ft L cs xs scale
                (Z.to_nat (u_samps N)) i) as [-> _]; [lia..|].
    by rewrite Hfn, inband_dc.
Qed.

Lemma sin_double_zero (x : R) : sin x = 0 -> sin (2 * x) = 0.
Proof. intros Hx. rewrite sin_2a, Hx. ring. Qed.

(** The gain of the CIC with DD = 1 and R = 8 is a positive real number
    wherever [sin (pi ft)] is not zero. *)
Lemma peak_gain_1_8 (f : R) :
  sin (PI * f) <> 0 ->
  peak_gain 1 8 (Num f) = Num (Rabs (8 * sin (PI * f / 8) / sin (PI * f)))
  /\ 0 < Rabs (8 * sin (PI * f / 8) / sin (PI * f)).
Proof.
  intros Hs.
  assert (sin (PI * f / 8) <> 0) as Hs8.
  { intros H0. apply Hs.
    replace (PI * f) with (2 * (2 * (2 * (PI * f / 8)))) by field.
    by do 3 apply sin_double_zero. }
  unfold peak_gain. cbn [fmul]. rewrite (fdiv_Num (PI * f)) by lra.
  cbn [fsin fmul]. replace (PI * 1 * f) with (PI * f) by ring.
  rewrite fdiv_Num by done. rewrite abs_neg_Num.
  change (IZR (1 * 8)) with 8. split; [done|].
  apply Rabs_pos_lt. unfold Rdiv.
  apply Rmult_integral_contrapositive_currified;
    [|by apply Rinv_neq_0_compat].
  apply Rmult_integral_contrapositive_currified; [lra | done].
Qed.

(** The entry at [fn = 0] for the CIC with DD = 1, R = 8 and four pairs. *)
Lemma magnitude_dc_cic8 (N : Z) (f : R) (L : fp) (cs xs : Z)
    (sc : R) (xtype : Z) (i : nat) :
  let gain := Rabs (8 * sin (PI * f / 8) / sin (PI * f)) in
  (0 <= N)%Z -> (i < Z.to_nat (u_samps N))%nat ->
  fn_of N L (offset N + INR i) = Num 0 ->
  0 < f -> sin (PI * f) <> 0 ->
  xtype = 0%Z \/ (xtype = 1%Z /\ (Z.of_nat i < cs)%Z) ->
  0 < gain
  /\ peak_gain 1 8 (Num f) = Num gain
  /\ magnitude N 1 8 4 (Num f) L cs xs (Num sc) xtype !! i
     = Some (Num (1 * (sc / powerRZ gain 4))).
Proof.
  intros gain HN Hi Hfn Hf Hs Hband.
  destruct (peak_gain_1_8 f Hs) as [Hg Hpos]. fold gain in Hg, Hpos.
  split; [done|]. split; [done|].
  rewrite (magnitude_dc N 1 8 4 (Num f) L cs xs (Num sc) xtype i); try done.
  - unfold local_scale. rewrite Hg, fpow_Num by lra.
    assert (0 < powerRZ gain 4) by by apply powerRZ_lt.
    rewrite fdiv_Num by lra. done.
  - destruct Hband as [->|Hband]; [left|by right].
    split; [done|]. apply fle_Num. lra.
Qed.


Lemma fn_dc_3 : fn_of 3 (Num 1) (offset 3 + INR 0) = Num 0.
Proof.
  unfold fn_of. cbn [fmul]. rewrite fdiv_Num by lra.
  rewrite offset_odd by closed_arith. simpl INR. f_equal. lra.
Qed.

Lemma sin_PI_half : sin (PI * (1 / 2)) = 1.
Proof. replace (PI * (1 / 2)) with (PI / 2) by lra. apply sin_PI2. Qed.


Lemma gain_half_gt_1 : 1 < Rabs (8 * sin (PI * (1 / 2) / 8) / sin (PI * (1 / 2))).
Proof.
  pose proof PI_gt_3. pose proof PI_4. pose proof sin_PI_20 as Hs.
  rewrite sin_PI_half.
  assert (sin (PI / 20) < sin (PI * (1 / 2) / 8))
    by (apply sin_increasing_1; lra).
  rewrite Rabs_right; lra.
Qed.


(** At a cutoff of zero the gain is [0 / 0]: the normalized scale and the
    entry at [fn = 0] are NaN. *)
Lemma magnitude_dc_nan (N : Z) (L : fp) (cs xs : Z) (scale : fp) (xtype : Z)
    (i : nat) :
  (0 <= N)%Z -> (i < Z.to_nat (u_samps N))%nat ->
  fn_of N L (offset N + INR i) = Num 0 ->
  xtype = 0%Z \/ (xtype = 1%Z /\ (Z.of_nat i < cs)%Z) ->
  peak_gain 1 8 (Num 0) = NaN
  /\ magnitude N 1 8 4 (Num 0) L cs xs scale xtype !! i = Some NaN.
Proof.
  intros HN Hi Hfn Hband.
  assert (peak_gain 1 8 (Num 0) = NaN) as Hg.
  { unfold peak_gain. cbn [fmul]. rewrite (fdiv_Num (PI * 0)) by lra.
    cbn [fsin fmul fdiv].
    replace (PI * 1 * 0) with 0 by ring. replace (PI * 0 / 8) with 0 by lra.
    rewrite sin_0, Rmult_0_r. by rewrite !is_zero_true. }
  split; [done|].
  rewrite (magnitude_dc N 1 8 4 (Num 0) L cs xs scale xtype i); try done.
  - unfold local_scale. rewrite Hg. by destruct scale.
  - destruct Hband as [->|Hband]; [left|by right].
    split; [done|]. apply fle_Num. lra.
Qed.

(** *** The raised-cosine midpoint (C7) *)

(** With the raised-cosine transition and [2 k > 0] transition samples, the
    entry in the middle of the transition region is one half of the last
    in-band entry, as long as the middle lies in the unique half. *)
Lemma rcos_midpoint (N DD Rcic Pairs : Z) (ft L : fp) (cs k : Z) (scale : fp) :
  let a := magnitude N DD Rcic Pairs ft L cs (2 * k) scale 1 in
  (0 <= N)%Z -> (0 < k)%Z -> (1 <= cs)%Z -> (cs + k < u_samps N)%Z ->
  exists m : fp,
    a !! Z.to_nat (cs - 1) = Some m
    /\ a !! Z.to_nat (cs + k) = Some (fmul (Num 0.5) m).
Proof.
  intros a HN Hk Hcs Hmid. pose proof (u_samps_le N HN) as Hu.
  exists (mag (for_loop 0 (Z.to_nat cs)
            (step_rcos N DD Rcic Pairs ft L cs (2 * k) scale)
            {| ri := offset N; mag := Num 0;
               A := replicate (Z.to_nat N) (Num 0) |})).
  subst a. rewrite !magnitude_low by lia. unfold unique_half.
  cbn [Z.eqb Pos.eqb]. split.
  - destruct (rcos_inband N DD Rcic Pairs ft L cs (2 * k) scale
                (Z.to_nat (u_samps N)) (Z.to_nat (cs - 1))) as [-> Hm];
      [lia..|].
    replace (S (Z.to_nat (cs - 1))) with (Z.to_nat cs) in Hm by lia.
    by rewrite Hm.
  - rewrite rcos_transition by lia.
    rewrite (rcos_mag_frozen N DD Rcic Pairs ft L cs (2 * k) scale
               (Z.to_nat cs)) by lia.
    replace (Z.to_nat (Z.of_nat (Z.to_nat (cs + k)) - cs)) with (Z.to_nat k) by lia.
    rewrite xistion_midpoint by done. by rewrite fmul_comm.
Qed.




(** *** The length of the impulse response (C6) *)

Lemma length_fir_fsamp (tap : Z -> list fp -> Z -> fp -> Z -> nat -> fp)
    (c_impulse : list fp) (N : Z) (a : list fp) (rtype : Z) (scale : fp)
    (wintype : Z) :
  length (fir_fsamp tap c_impulse N a rtype scale wintype) = length c_impulse.
Proof. unfold fir_fsamp. apply length_imap. Qed.

Lemma sizes_order (N DD Rcic : Z) (runrate cutoff : float32) (xtype : Z)
    (xbw : float32) (r : Z * Z) :
  sizes N DD Rcic runrate cutoff xtype xbw = Some r -> (0 <= N)%Z.
Proof.
  unfold sizes. destruct (Z.leb_spec 0 N) as [HN|]; [done|].
  by cbn [andb].
Qed.

(** C6: whenever [icfir_impulse] has a defined result (the order is not
    negative, the casts to [int] are applied to finite values in range and
    no [int] overflows), it produces an impulse response of exactly [2 N]
    tap values, whatever the caller's vector held before. *)
Theorem icfir_impulse_length (tap : Z -> list fp -> Z -> fp -> Z -> nat -> fp)
    (impulse : list fp) (N DD Rcic Pairs : Z) (runrate cicrate cutoff : float32)
    (xtype : Z) (xbw : float32) (rtype : Z) (scale : float32) (wintype : Z) :
  defined N DD Rcic runrate cutoff xtype xbw = true ->
  exists taps : list fp,
    icfir_impulse tap impulse N DD Rcic Pairs runrate cicrate cutoff xtype xbw
      rtype scale wintype = Some taps
    /\ Z.of_nat (length taps) = (2 * N)%Z.
Proof.
  intros Hdef. unfold icfir_impulse, defined in *.
  destruct (sizes N DD Rcic runrate cutoff xtype xbw) as [[cs xs]|] eqn:Hs;
    [|done].
  apply sizes_order in Hs.
  eexists. split; [reflexivity|].
  rewrite length_fir_fsamp, length_vector_resize. lia.
Qed.

Lemma icfir_impulse_length_witness :
  exists taps : list fp,
    icfir_impulse (fun _ _ _ _ _ _ => Num 0) [] 64 1 8 4 (float_of_int 48000)
      (float_of_int 48000) (float_of_int 6000) 1 (float_of_int 6000) 1
      (float_div (float_of_int 1) (float_of_int 128)) 0 = Some taps
    /\ Z.of_nat (length taps) = (2 * 64)%Z.
Proof.
  apply (icfir_impulse_length (fun _ _ _ _ _ _ => Num 0) [] 64 1 8 4
           (float_of_int 48000) (float_of_int 48000) (float_of_int 6000) 1
           (float_of_int 6000) 1
           (float_div (float_of_int 1) (float_of_int 128)) 0).
  reflexivity.
Defined.

End ICFIR_Facts.

(** ** Properties of [SpectrumVis] *)

Module SpectrumVis_Facts.
Import SpectrumVis.
Local Open Scope Z_scope.

Section Configuration.
Context `{Collaborators}.

Lemma clamp_fftSize_range (settings : GLSpectrumSettings) :
  64 <= clamp_fftSize settings <= MAX_FFT_SIZE.
Proof. unfold clamp_fftSize, MAX_FFT_SIZE. repeat case_match; lia. Qed.

Lemma clamp_overlap_range (settings : GLSpectrumSettings) :
  0 <= clamp_overlap settings <= 100.
Proof. unfold clamp_overlap. repeat case_match; lia. Qed.

Lemma clamp_fftSize_id (settings : GLSpectrumSettings) :
  64 <= m_fftSize settings <= MAX_FFT_SIZE ->
  clamp_fftSize settings = m_fftSize settings.
Proof. unfold clamp_fftSize, MAX_FFT_SIZE. repeat case_match; lia. Qed.

Lemma clamp_overlap_id (settings : GLSpectrumSettings) :
  0 <= m_fftOverlap settings <= 100 ->
  clamp_overlap settings = m_fftOverlap settings.
Proof. unfold clamp_overlap. repeat case_match; lia. Qed.

Lemma AveragingMode_eqb_refl (a : AveragingMode) : AveragingMode_eqb a a = true.
Proof. by destruct a. Qed.

(** The settings stored by [applySettings] are the requested ones with the
    two clamped values. *)
Lemma applySettings_settings (settings : GLSpectrumSettings) (force : bool)
    (s : SpectrumVis) :
  m_settings (applySettings settings force s)
  = with_fft (clamp_fftSize settings) (clamp_overlap settings) settings.
Proof. reflexivity. Qed.

(** C5: [applySettings] is total and rejects nothing. Whatever is
    requested, the stored [m_fftSize] is the request clamped into
    [64, 4096], the stored [m_fftOverlap] the request clamped into [0, 100],
    every other setting is stored as requested, and the settings-read path
    answers 200 with the clamped values. *)
Theorem applySettings_clamps (settings : GLSpectrumSettings) (force : bool)
    (s : SpectrumVis) :
  let s' := applySettings settings force s in
  let stored := m_settings s' in
  let response := webapiSpectrumSettingsGet s' in
  64 <= m_fftSize stored <= 4096
  /\ 0 <= m_fftOverlap stored <= 100
  /\ m_fftSize stored = Z.max 64 (Z.min 4096 (m_fftSize settings))
  /\ m_fftOverlap stored = Z.max 0 (Z.min 100 (m_fftOverlap settings))
  /\ stored = with_fft (m_fftSize stored) (m_fftOverlap stored) settings
  /\ response.1 = 200
  /\ r_fftSize response.2 = m_fftSize stored
  /\ r_fftOverlap response.2 = m_fftOverlap stored.
Proof.
  intros s' stored response. subst response stored s'.
  unfold webapiSpectrumSettingsGet. rewrite applySettings_settings.
  cbn [m_fftSize m_fftOverlap with_fft fst snd webapiFormatSpectrumSettings
       r_fftSize r_fftOverlap].
  pose proof (clamp_fftSize_range settings) as Hf.
  pose proof (clamp_overlap_range settings) as Ho.
  unfold MAX_FFT_SIZE in Hf.
  repeat split; try lia.
  - unfold clamp_fftSize, MAX_FFT_SIZE. repeat case_match; lia.
  - unfold clamp_overlap. repeat case_match; lia.
Qed.

(** With nothing changed and no force, [applySettings] leaves the whole
    pipeline as it is. *)
Lemma applySettings_unchanged (settings : GLSpectrumSettings) (s : SpectrumVis) :
  m_settings s = with_fft (clamp_fftSize settings) (clamp_overlap settings) settings ->
  applySettings settings false s = s.
Proof.
  intros Hs. unfold applySettings. rewrite Hs.
  cbn [m_fftSize m_fftOverlap m_fftWindow m_averagingIndex m_averagingMode
       m_wsSpectrumAddress m_wsSpectrumPort with_fft].
  rewrite !Z.eqb_refl, AveragingMode_eqb_refl, String.eqb_refl.
  cbn [negb orb]. rewrite <- Hs. by destruct s.
Qed.

(** C4: [applySettings] with force, followed at once by [applySettings] with
    the same settings and no force: the second call changes nothing. No
    engine is released or acquired, no window is created and no accumulator
    is resized (the trace of such calls is the one the first call left),
    and every member, the engine, the window, the framing sizes and the
    three accumulators among them, is as the first call left it. *)
Theorem applySettings_twice (settings : GLSpectrumSettings) (s : SpectrumVis) :
  let s1 := applySettings settings true s in
  let s2 := applySettings settings false s1 in
  s2 = s1
  /\ m_trace s2 = m_trace s1
  /\ m_fft s2 = m_fft s1 /\ m_fftEngineSequence s2 = m_fftEngineSequence s1
  /\ m_window s2 = m_window s1
  /\ m_movingAverage s2 = m_movingAverage s1
  /\ m_fixedAverage s2 = m_fixedAverage s1
  /\ m_max s2 = m_max s1.
Proof.
  intros s1 s2.
  assert (s2 = s1) as ->; [|done].
  subst s2. apply applySettings_unchanged. subst s1.
  by rewrite applySettings_settings.
Qed.

(** The first, forced call does rebuild: it acquires an engine, creates the
    window and resizes the accumulators. *)
Lemma applySettings_force_trace (settings : GLSpectrumSettings) (s : SpectrumVis) :
  exists released : list Event,
    m_trace (applySettings settings true s) =
      m_trace s ++ released
      ++ [EvGetEngine (clamp_fftSize settings) false;
          EvWindowCreate (m_fftWindow settings) (clamp_fftSize settings);
          EvAveragingResize (clamp_fftSize settings)
            (to_unsigned (getAveragingValue (m_averagingIndex settings)
                            (m_averagingMode settings)))]
    /\ released =
         match m_fft s with
         | Some _ => [EvReleaseEngine (m_fftSize (m_settings s)) false
                        (m_fftEngineSequence s)]
         | None => []
         end.
Proof.
  eexists. split; [|reflexivity].
  unfold applySettings. rewrite !orb_true_r.
  destruct (m_fft s) eqn:Hfft; cbn [log_event m_trace set_trace].
  - destruct (getEngine _ _ _) as [sq eng]. cbn. by rewrite <- !app_assoc.
  - destruct (getEngine _ _ _) as [sq eng]. cbn. by rewrite <- !app_assoc.
Qed.

(** [applySettings] with force establishes the configured relations and
    starts a frame. *)
Lemma applySettings_configured (settings : GLSpectrumSettings) (s : SpectrumVis) :
  Z.of_nat (length (m_fftBuffer s)) = MAX_FFT_SIZE ->
  Z.of_nat (length (m_powerSpectrum s)) = MAX_FFT_SIZE ->
  let s' := applySettings settings true s in
  configured s' /\ m_fftBufferFill s' = m_overlapSize s'.
Proof.
  intros Hb Hp s'. subst s'.
  pose proof (clamp_fftSize_range settings) as Hf.
  pose proof (clamp_overlap_range settings) as Ho.
  unfold configured, applySettings. rewrite !orb_true_r.
  destruct (getEngine _ _ _) as [sq eng]. cbn.
  by destruct (m_fft s).
Qed.

(** *** Start and stop (C9) *)

Lemma stopped_is_stop (s : SpectrumVis) : m_running s = false -> stop s = s.
Proof. intros Hr. unfold stop, set_running. rewrite <- Hr. by destruct s. Qed.

(** C9: in a stopped pipeline every call to the streaming [feed] returns at
    once: the result is the state it was given, so no frame is published and
    the staging buffer, its fill pointer, the settings and the accumulators
    are untouched. [stop] clears the running flag and nothing else (putting
    the old flag back gives the old state), and a second [stop] changes
    nothing. Every state whose flag is clear has the form [stop s]. *)
Theorem feed_while_stopped (samples : list Sample) (positiveOnly : bool)
    (s : SpectrumVis) :
  feed samples positiveOnly (stop s) = Some (stop s)
  /\ m_running (stop s) = false
  /\ set_running (m_running s) (stop s) = s
  /\ start (stop s) = start s
  /\ stop (stop s) = stop s.
Proof.
  repeat split; try reflexivity. by destruct s.
Qed.

End Configuration.

Section Framing.
Context `{Collaborators}.

Lemma write_samples_Some (scalef : R) (xs : list Sample) (it : nat)
    (buf : list Complex) :
  (it + length xs <= length buf)%nat ->
  exists buf', write_samples scalef it xs buf = Some buf'
               /\ length buf' = length buf.
Proof.
  revert it buf. induction xs as [|x xs IH]; intros it buf Hlen.
  - by exists buf.
  - simpl in *. rewrite vstore_Some by lia. simpl.
    destruct (IH (S it) (<[it := scale_sample scalef x]> buf)) as (buf' & -> & Hl).
    + rewrite length_insert. lia.
    + exists buf'. by rewrite Hl, length_insert.
Qed.

(** The reordering loop without [positiveOnly]: each turn stores two bins. *)
Lemma reorder_full_loop (s : SpectrumVis) (fftOut : nat -> Complex)
    (half n : nat) (P : list fp) :
  (n <= half)%nat -> (2 * half <= length P)%nat ->
  exists P', for_loop_opt 0 n (reorder_none s false fftOut half) P = Some P'
    /\ length P' = length P
    /\ (forall i : nat, (i < n)%nat ->
          P' !! i = Some (display s (power (fftOut (i + half)%nat)))
          /\ P' !! (i + half)%nat = Some (display s (power (fftOut i))))
    /\ (forall k : nat, (n <= k < half)%nat \/ (half + n <= k)%nat ->
          P' !! k = P !! k).
Proof.
  intros Hn Hlen. induction n as [|n IH].
  - exists P. rewrite for_loop_opt_0.
    split; [done|]. split; [done|]. split; [intros; lia | done].
  - destruct IH as (P0 & Hloop & Hl & Hdone & Hrest); [lia|].
    rewrite for_loop_opt_S, Hloop. cbn [mbind option_bind Nat.add].
    unfold reorder_none. rewrite vstore_Some by lia. cbn [mbind option_bind].
    rewrite vstore_Some by (rewrite length_insert; lia).
    eexists. split; [reflexivity|]. split; [by rewrite !length_insert|]. split.
    + intros i Hi. destruct (decide (i = n)) as [->|Hne].
      * split.
        -- rewrite list_lookup_insert_ne by lia.
           apply list_lookup_insert_eq. lia.
        -- apply list_lookup_insert_eq. rewrite length_insert. lia.
      * rewrite !list_lookup_insert_ne by lia. apply Hdone. lia.
    + intros k Hk. rewrite !list_lookup_insert_ne by lia. apply Hrest. lia.
Qed.

(** The reordering loop with [positiveOnly]: each turn stores one bin twice. *)
Lemma reorder_positive_loop (s : SpectrumVis) (fftOut : nat -> Complex)
    (half n : nat) (P : list fp) :
  (n <= half)%nat -> (2 * half <= length P)%nat ->
  exists P', for_loop_opt 0 n (reorder_none s true fftOut half) P = Some P'
    /\ length P' = length P
    /\ (forall i : nat, (i < n)%nat ->
          P' !! (2 * i)%nat = Some (display s (power (fftOut i)))
          /\ P' !! (2 * i + 1)%nat = Some (display s (power (fftOut i))))
    /\ (forall k : nat, (2 * n <= k)%nat -> P' !! k = P !! k).
Proof.
  intros Hn Hlen. induction n as [|n IH].
  - exists P. rewrite for_loop_opt_0.
    split; [done|]. split; [done|]. split; [intros; lia | done].
  - destruct IH as (P0 & Hloop & Hl & Hdone & Hrest); [lia|].
    rewrite for_loop_opt_S, Hloop. cbn [mbind option_bind Nat.add].
    unfold reorder_none. rewrite vstore_Some by lia. cbn [mbind option_bind].
    rewrite vstore_Some by (rewrite length_insert; lia).
    eexists. split; [reflexivity|]. split; [by rewrite !length_insert|]. split.
    + intros i Hi. destruct (decide (i = n)) as [->|Hne].
      * replace (2 * n)%nat with (n * 2)%nat by lia. split.
        -- rewrite list_lookup_insert_ne by lia.
           apply list_lookup_insert_eq. lia.
        -- apply list_lookup_insert_eq. rewrite length_insert. lia.
      * rewrite !list_lookup_insert_ne by lia. apply Hdone. lia.
    + intros k Hk. rewrite !list_lookup_insert_ne by lia. apply Hrest. lia.
Qed.

Lemma reorder_loop (s : SpectrumVis) (positiveOnly : bool)
    (fftOut : nat -> Complex) (half : nat) (P : list fp) :
  (2 * half <= length P)%nat ->
  exists P', for_loop_opt 0 half (reorder_none s positiveOnly fftOut half) P = Some P'
    /\ length P' = length P
    /\ reordered s positiveOnly fftOut half P'.
Proof.
  intros Hlen. destruct positiveOnly.
  - destruct (reorder_positive_loop s fftOut half half P) as (P' & ? & ? & Hd & _);
      [lia..|].
    exists P'. split; [done|]. split; [done|]. intros i Hi. by apply Hd.
  - destruct (reorder_full_loop s fftOut half half P) as (P' & ? & ? & Hd & _);
      [lia..|].
    exists P'. split; [done|]. split; [done|]. intros i Hi. by apply Hd.
Qed.

Lemma publish_gl (s : SpectrumVis) (frames : list GLFrame) :
  m_glSpectrum s = Some frames ->
  m_glSpectrum (publish s)
  = Some (frames ++ [{| gl_spectrum := m_powerSpectrum s;
                        gl_fftSize := m_fftSize (m_settings s) |}]).
Proof.
  intros Hgl. unfold publish. rewrite Hgl.
  by destruct (ws_opened _).
Qed.

Lemma half_size (fftSize : Z) :
  0 <= fftSize <= MAX_FFT_SIZE ->
  Z.to_nat (to_size_t (fftSize ÷ 2)) = Z.to_nat (fftSize / 2)
  /\ (2 * Z.to_nat (fftSize / 2) <= Z.to_nat fftSize)%nat.
Proof.
  unfold MAX_FFT_SIZE, to_size_t. intros Hf.
  rewrite Z.quot_div_nonneg by lia.
  rewrite Z.mod_small by (split; [|apply Z.lt_le_trans with 4097; [|done]];
                          Z.div_mod_to_equations; lia).
  split; [done|]. Z.div_mod_to_equations; lia.
Qed.

(** The extraction step in averaging mode None stores a reordered spectrum
    and publishes it. *)
Lemma spectrum_none (positiveOnly : bool) (fftOut : nat -> Complex)
    (s : SpectrumVis) :
  m_averagingMode (m_settings s) = AvgModeNone ->
  0 <= m_fftSize (m_settings s) <= MAX_FFT_SIZE ->
  Z.of_nat (length (m_powerSpectrum s)) = MAX_FFT_SIZE ->
  exists P, spectrum positiveOnly fftOut s = Some (publish (set_powerSpectrum P s))
    /\ length P = length (m_powerSpectrum s)
    /\ reordered s positiveOnly fftOut
         (Z.to_nat (m_fftSize (m_settings s) / 2)) P.
Proof.
  intros Hmode Hsize Hlen. unfold spectrum. rewrite Hmode.
  destruct (half_size _ Hsize) as [-> Hhalf].
  destruct (reorder_loop s positiveOnly fftOut
              (Z.to_nat (m_fftSize (m_settings s) / 2)) (m_powerSpectrum s))
    as (P & -> & Hl & Hre); [lia|].
  by exists P.
Qed.

Lemma overlap_bounds (s : SpectrumVis) :
  configured s -> 0 <= m_overlapSize s <= m_fftSize (m_settings s)
                  /\ 0 <= m_refillSize s <= MAX_FFT_SIZE.
Proof.
  intros (Hf & Ho & -> & -> & _). unfold MAX_FFT_SIZE in *.
  rewrite Z.quot_div_nonneg by nia.
  assert (0 <= m_fftSize (m_settings s) * m_fftOverlap (m_settings s) / 100
          <= m_fftSize (m_settings s)); [|lia].
  split; [apply Z.div_pos; nia|].
  apply Z.div_le_upper_bound; nia.
Qed.

(** One frame in averaging mode None, with a display attached. *)
Lemma process_frame_none (xs : list Sample) (positiveOnly : bool)
    (s : SpectrumVis) (frames : list GLFrame) (engine : FFTEngine) :
  configured s -> m_averagingMode (m_settings s) = AvgModeNone ->
  m_fft s = Some engine -> m_glSpectrum s = Some frames ->
  0 <= m_fftBufferFill s ->
  m_fftBufferFill s + Z.of_nat (length xs) <= MAX_FFT_SIZE ->
  exists (buf : list Complex) (P : list fp) (s' : SpectrumVis),
    write_samples (m_scalef s) (Z.to_nat (m_fftBufferFill s)) xs (m_fftBuffer s)
      = Some buf
    /\ process_frame xs positiveOnly s = Some s'
    /\ m_glSpectrum s'
       = Some (frames ++ [{| gl_spectrum := P;
                             gl_fftSize := m_fftSize (m_settings s) |}])
    /\ reordered s positiveOnly (fft_out engine (window_apply (m_window s) buf))
         (Z.to_nat (m_fftSize (m_settings s) / 2)) P.
Proof.
  intros Hc Hmode Hfft Hgl Hfill Hroom.
  pose proof (overlap_bounds s Hc) as [Hov Hre].
  destruct Hc as (Hf & Ho & Hovs & Hrfs & Hdiv & Hbl & Hpl).
  destruct (write_samples_Some (m_scalef s) xs (Z.to_nat (m_fftBufferFill s))
              (m_fftBuffer s)) as (buf & Hw & Hbuf); [lia|].
  destruct (spectrum_none positiveOnly
              (fft_out engine (window_apply (m_window s) buf))
              (set_fftBuffer buf s)) as (P & Hsp & HPl & HP);
    [done | cbn; lia | done |].
  exists buf, P. unfold process_frame.
  rewrite Hw, Hfft. cbn [mbind option_bind]. rewrite Hsp. cbn [mbind option_bind].
  unfold advance.
  destruct (Z.leb_spec 0 (m_refillSize s)) as [_|]; [|lia].
  destruct (Z.leb_spec (m_refillSize s) (Z.of_nat (length buf))) as [_|]; [|lia].
  cbn [andb mbind option_bind]. eexists. split; [done|]. split; [reflexivity|].
  split; [|exact HP].
  cbn [m_glSpectrum set_fill set_fftBuffer].
  by rewrite (publish_gl _ frames).
Qed.

(** A call that brings exactly the samples the frame still needs runs one
    frame and returns. *)
Lemma feed_exact_frame (xs : list Sample) (positiveOnly : bool) (s : SpectrumVis) :
  m_running s = true -> gl_attached s = true -> m_mutex s = false ->
  0 < m_refillSize s - m_fftBufferFill s < 2 ^ 64 ->
  Z.of_nat (length xs) = m_refillSize s - m_fftBufferFill s ->
  feed xs positiveOnly s = process_frame xs positiveOnly s.
Proof.
  intros Hrun Hgl Hmu Hneed Hlen. unfold feed. rewrite Hrun, Hgl, Hmu.
  cbn [negb andb]. destruct xs as [|x xs]; [simpl in Hlen; lia|].
  cbn [feed_loop]. unfold to_size_t. rewrite Z.mod_small by lia.
  rewrite <- Hlen, Z.leb_refl, Nat2Z.id, take_ge, drop_ge by done.
  destruct (process_frame _ _ _) as [s1|]; [|done].
  by cbn.
Qed.

(** A call that brings fewer samples than the frame needs only stores them. *)
Lemma feed_partial (xs : list Sample) (positiveOnly : bool) (s : SpectrumVis) :
  m_running s = true -> gl_attached s = true -> m_mutex s = false ->
  0 <= m_fftBufferFill s -> m_refillSize s <= MAX_FFT_SIZE ->
  (0 < length xs)%nat -> Z.of_nat (length xs) < m_refillSize s - m_fftBufferFill s ->
  Z.of_nat (length (m_fftBuffer s)) = MAX_FFT_SIZE ->
  exists buf, length buf = length (m_fftBuffer s)
    /\ feed xs positiveOnly s =
       Some (set_fill (m_fftBufferFill s + Z.of_nat (length xs)) true
               (set_fftBuffer buf s)).
Proof.
  intros Hrun Hgl Hmu Hfill Hre Hne Hlen Hbl. unfold feed, MAX_FFT_SIZE in *.
  rewrite Hrun, Hgl, Hmu. cbn [negb andb].
  destruct xs as [|x xs]; [simpl in Hne; lia|].
  cbn [feed_loop]. unfold to_size_t.
  rewrite (Z.mod_small (m_refillSize s - m_fftBufferFill s))
    by (split; [lia | apply Z.lt_le_trans with 4097; [lia|done]]).
  destruct (Z.leb_spec (m_refillSize s - m_fftBufferFill s)
              (Z.of_nat (length (x :: xs)))) as [|_]; [lia|].
  destruct (write_samples_Some (m_scalef s) (x :: xs)
              (Z.to_nat (m_fftBufferFill s)) (m_fftBuffer s))
    as (buf & -> & Hbuf); [lia|].
  exists buf. split; [done|]. cbn [mbind option_bind].
  rewrite Z.mod_small
    by (split; [lia | apply Z.lt_le_trans with 4097; [lia|done]]).
  done.
Qed.

End Framing.

(** *** Framing without overlap (C3) and reordering (C8) *)

Section Frames.
Context `{Collaborators}.

(** C3: averaging mode None, a display attached, the pipeline running and
    not being reconfigured, overlap 0 %, at a frame boundary. Feeding
    exactly [fftSize] samples publishes exactly one frame. Feeding half of
    [fftSize] samples twice publishes no frame in the first call and exactly
    one in the second. *)
Theorem framing_without_overlap (zs xs ys : list Sample) (positiveOnly : bool)
    (s : SpectrumVis) (frames : list GLFrame) (engine : FFTEngine) :
  configured s -> m_running s = true -> m_glSpectrum s = Some frames ->
  m_mutex s = false -> m_fft s = Some engine ->
  m_averagingMode (m_settings s) = AvgModeNone ->
  m_fftOverlap (m_settings s) = 0 -> m_fftBufferFill s = 0 ->
  Z.of_nat (length zs) = m_fftSize (m_settings s) ->
  2 * Z.of_nat (length xs) = m_fftSize (m_settings s) ->
  length ys = length xs ->
  (exists s' frame,
     feed zs positiveOnly s = Some s'
     /\ m_glSpectrum s' = Some (frames ++ [frame]))
  /\ (exists s1 s2 frame,
        feed xs positiveOnly s = Some s1
        /\ m_glSpectrum s1 = Some frames
        /\ feed ys positiveOnly s1 = Some s2
        /\ m_glSpectrum s2 = Some (frames ++ [frame])).
Proof.
  intros Hc Hrun Hgl Hmu Hfft Hmode Hov Hfill Hzs Hxs Hys.
  assert (gl_attached s = true) as Hat by (unfold gl_attached; by rewrite Hgl).
  pose proof Hc as (Hf & Ho & Hovs & Hrfs & Hdiv & Hbl & Hpl).
  rewrite Hov, Z.mul_0_r in Hovs. change (0 ÷ 100) with 0 in Hovs.
  rewrite Hovs, Z.sub_0_r in Hrfs. unfold MAX_FFT_SIZE in *.
  split.
  - destruct (process_frame_none zs positiveOnly s frames engine)
      as (buf & P & s' & _ & Hpf & Hfr & _);
      [done.. | lia | unfold MAX_FFT_SIZE; lia |].
    exists s'. eexists. split; [|exact Hfr].
    rewrite feed_exact_frame; [done..| lia | lia].
  - destruct (feed_partial xs positiveOnly s) as (buf & Hbuf & Hfeed);
      [done.. | lia | unfold MAX_FFT_SIZE; lia | lia | lia | done |].
    set (s1 := set_fill (m_fftBufferFill s + Z.of_nat (length xs)) true
                 (set_fftBuffer buf s)) in *.
    assert (configured s1) as Hc1.
    { unfold configured, MAX_FFT_SIZE. subst s1.
      cbn [m_settings m_overlapSize m_refillSize m_powFFTDiv m_fftBuffer
           m_powerSpectrum set_fill set_fftBuffer].
      rewrite Hbuf, Hov, Z.mul_0_r. change (0 ÷ 100) with 0.
      repeat split; first [lia | done]. }
    destruct (process_frame_none ys positiveOnly s1 frames engine)
      as (buf2 & P & s2 & _ & Hpf & Hfr & _);
      [done.. | subst s1; cbn; lia | subst s1; unfold MAX_FFT_SIZE; cbn; lia |].
    exists s1, s2. eexists. split; [exact Hfeed|]. split; [done|].
    split; [|exact Hfr].
    rewrite feed_exact_frame; [done | done | done | done | |];
      subst s1; cbn [m_refillSize m_fftBufferFill set_fill set_fftBuffer]; lia.
Qed.

(** C8: the reordering of a completed frame in averaging mode None. When one
    call brings the samples the frame still needs, the published array [P]
    holds, for every [i] below [fftSize / 2]: without [positiveOnly], the
    displayed power of output bin [i + fftSize / 2] at position [i] and
    that of output bin [i] at position [i + fftSize / 2]; with
    [positiveOnly], the displayed power of output bin [i] at both [2 i] and
    [2 i + 1]. The output bins are those of the transform of the windowed
    staging buffer [buf]. *)
Theorem feed_reorders (xs : list Sample) (positiveOnly : bool)
    (s : SpectrumVis) (frames : list GLFrame) (engine : FFTEngine) :
  configured s -> m_running s = true -> m_glSpectrum s = Some frames ->
  m_mutex s = false -> m_fft s = Some engine ->
  m_averagingMode (m_settings s) = AvgModeNone ->
  0 <= m_fftBufferFill s < m_refillSize s ->
  Z.of_nat (length xs) = m_refillSize s - m_fftBufferFill s ->
  exists (buf : list Complex) (P : list fp) (s' : SpectrumVis),
    let fftOut := fft_out engine (window_apply (m_window s) buf) in
    let halfSize := Z.to_nat (m_fftSize (m_settings s) / 2) in
    write_samples (m_scalef s) (Z.to_nat (m_fftBufferFill s)) xs (m_fftBuffer s)
      = Some buf
    /\ feed xs positiveOnly s = Some s'
    /\ m_glSpectrum s'
       = Some (frames ++ [{| gl_spectrum := P;
                             gl_fftSize := m_fftSize (m_settings s) |}])
    /\ (positiveOnly = false -> forall i : nat, (i < halfSize)%nat ->
          P !! i = Some (display s (power (fftOut (i + halfSize)%nat)))
          /\ P !! (i + halfSize)%nat = Some (display s (power (fftOut i))))
    /\ (positiveOnly = true -> forall i : nat, (i < halfSize)%nat ->
          P !! (2 * i)%nat = Some (display s (power (fftOut i)))
          /\ P !! (2 * i + 1)%nat = Some (display s (power (fftOut i)))).
Proof.
  intros Hc Hrun Hgl Hmu Hfft Hmode Hfill Hxs.
  assert (gl_attached s = true) as Hat by (unfold gl_attached; by rewrite Hgl).
  pose proof (overlap_bounds s Hc) as [_ Hre]. unfold MAX_FFT_SIZE in Hre.
  destruct (process_frame_none xs positiveOnly s frames engine)
    as (buf & P & s' & Hw & Hpf & Hfr & HP);
    [done.. | lia | unfold MAX_FFT_SIZE; lia |].
  exists buf, P, s'. cbv zeta. split; [exact Hw|].
  split; [rewrite feed_exact_frame; [done..| lia | lia]|].
  split; [exact Hfr|].
  split; intros -> i Hi; exact (HP i Hi).
Qed.

End Frames.

(** *** The per-bin overload (C10) *)

Section Bins.
Context `{Collaborators}.

Lemma publish_powerSpectrum (s : SpectrumVis) :
  m_powerSpectrum (publish s) = m_powerSpectrum s.
Proof.
  unfold publish. by destruct (m_glSpectrum s), (ws_opened _).
Qed.

Lemma display_zero (s : SpectrumVis) :
  configured s -> m_linear (m_settings s) = true ->
  display s (power (Num 0, Num 0)) = Num 0.
Proof.
  intros (Hf & _ & _ & _ & Hdiv & _) Hlin. unfold display, power.
  rewrite Hlin, Hdiv. cbn [fst snd fmul fadd].
  rewrite fdiv_Num by (apply not_0_IZR; nia).
  f_equal. unfold Rdiv. ring.
Qed.

(** In the logarithmic display a zero power is shown as minus infinity. *)
Lemma display_zero_log (s : SpectrumVis) (ofs : R) :
  m_linear (m_settings s) = false -> m_ofs s = Num ofs ->
  display s (power (Num 0, Num 0)) = NInf.
Proof.
  intros Hlin Hofs. unfold display, power. rewrite Hlin, Hofs.
  cbn [fst snd fmul fadd]. replace (0 * 0 + 0 * 0)%R with 0%R by ring.
  unfold log2f at 1. cbn [flog]. rewrite is_zero_true by done.
  assert (0 < ln 2)%R as H2 by (rewrite <- ln_1; apply ln_increasing; lra).
  assert (0 < ln 10)%R as H10 by (rewrite <- ln_1; apply ln_increasing; lra).
  assert (0 < ln 10 / ln 2)%R as Hq by by apply Rdiv_lt_0_compat.
  unfold m_mult, log2f. cbn [flog].
  rewrite (is_zero_false 10), (is_neg_false 10) by lra.
  rewrite fdiv_Num by lra. cbn [fmul].
  assert (0 < 10 / (ln 10 / ln 2))%R by (apply Rdiv_lt_0_compat; lra).
  by rewrite is_zero_false, is_neg_false by lra.
Qed.

(** The loop of the per-bin overload in averaging mode None. *)
Lemma bins_loop (s : SpectrumVis) (begin : list Complex) (len : Z)
    (n : nat) (P : list fp) :
  (n <= length P)%nat ->
  (forall i : nat, (i < n)%nat -> Z.of_nat i < len -> (i < length begin)%nat) ->
  exists P',
    for_loop_opt 0 n (fun i P =>
        c ← bin_input begin len i; vstore i (display s (power c)) P) P = Some P'
    /\ length P' = length P
    /\ (forall i : nat, (i < n)%nat ->
          exists c, bin_input begin len i = Some c
                    /\ P' !! i = Some (display s (power c)))
    /\ (forall k : nat, (n <= k)%nat -> P' !! k = P !! k).
Proof.
  intros Hn Hin. induction n as [|n IH].
  - exists P. rewrite for_loop_opt_0.
    split; [done|]. split; [done|]. split; [intros; lia | done].
  - destruct IH as (P0 & Hloop & Hl & Hdone & Hrest); [lia | intros; apply Hin; lia |].
    rewrite for_loop_opt_S, Hloop. cbn [mbind option_bind Nat.add].
    assert (exists c, bin_input begin len n = Some c) as [c Hc].
    { unfold bin_input. destruct (Z.ltb_spec (Z.of_nat n) len); [|by eexists].
      apply lookup_lt_is_Some_2, Hin; lia. }
    rewrite Hc. cbn [mbind option_bind]. rewrite vstore_Some by lia.
    eexists. split; [reflexivity|]. split; [by rewrite length_insert|]. split.
    + intros i Hi. destruct (decide (i = n)) as [->|Hne].
      * exists c. split; [done|]. apply list_lookup_insert_eq. lia.
      * rewrite list_lookup_insert_ne by lia. apply Hdone. lia.
    + intros k Hk. rewrite list_lookup_insert_ne by lia. apply Hrest. lia.
Qed.

(** C10: the per-bin overload, in averaging mode None with a display
    attached, stores and publishes exactly the bins below [fftSize],
    whatever [length] is: a bin below [length] holds the displayed power of
    the input at that index, a bin at or above [length] holds the displayed
    power of the zero sample, which is 0 when the linear flag is set, and
    the entries from [fftSize] on are left as they were. *)
Theorem feed_bins_zero_pads (begin : list Complex) (len : Z) (s : SpectrumVis)
    (frames : list GLFrame) :
  configured s -> m_glSpectrum s = Some frames -> m_mutex s = false ->
  m_averagingMode (m_settings s) = AvgModeNone ->
  Z.min len (m_fftSize (m_settings s)) <= Z.of_nat (length begin) ->
  exists (P : list fp) (s' : SpectrumVis),
    feed_bins begin len s = Some s'
    /\ m_powerSpectrum s' = P
    /\ m_glSpectrum s'
       = Some (frames ++ [{| gl_spectrum := P;
                             gl_fftSize := m_fftSize (m_settings s) |}])
    /\ (forall i : nat, Z.of_nat i < m_fftSize (m_settings s) ->
          Z.of_nat i < len ->
          exists c, begin !! i = Some c /\ P !! i = Some (display s (power c)))
    /\ (forall i : nat, Z.of_nat i < m_fftSize (m_settings s) ->
          len <= Z.of_nat i ->
          P !! i = Some (display s (power (Num 0, Num 0)))
          /\ (m_linear (m_settings s) = true -> P !! i = Some (Num 0)))
    /\ (forall i : nat, m_fftSize (m_settings s) <= Z.of_nat i ->
          P !! i = m_powerSpectrum s !! i).
Proof.
  intros Hc Hgl Hmu Hmode Hbegin. pose proof Hc as Hcfg.
  destruct Hc as (Hf & _ & _ & _ & _ & _ & Hpl). unfold MAX_FFT_SIZE in *.
  unfold feed_bins, gl_attached. rewrite Hgl, Hmu, Hmode. cbn [negb andb].
  unfold to_unsigned.
  rewrite Z.mod_small by (split; [lia | apply Z.le_lt_trans with 4096; [lia|done]]).
  destruct (bins_loop s begin len (Z.to_nat (m_fftSize (m_settings s)))
              (m_powerSpectrum s)) as (P & -> & Hl & Hdone & Hrest);
    [lia | intros; lia |].
  cbn [mbind option_bind]. exists P. eexists. split; [reflexivity|].
  split; [by rewrite publish_powerSpectrum|].
  split; [by rewrite (publish_gl _ frames)|].
  split; [|split].
  - intros i Hi Hlen. destruct (Hdone i) as (c & Hc & HP); [lia|].
    unfold bin_input in Hc. destruct (Z.ltb_spec (Z.of_nat i) len); [|lia].
    by exists c.
  - intros i Hi Hlen. destruct (Hdone i) as (c & Hc & HP); [lia|].
    unfold bin_input in Hc. destruct (Z.ltb_spec (Z.of_nat i) len); [lia|].
    injection Hc as <-. split; [done|]. intros Hlin.
    by rewrite HP, display_zero.
  - intros i Hi. apply Hrest. lia.
Qed.

End Bins.

Section Example.
#[local] Existing Instance idle_collaborators.

(** The concrete pipeline is configured, running and waits at a frame start. *)
Lemma example_pipeline_configured (fftSize overlap : Z) (linear : bool) :
  let s := example_pipeline fftSize overlap linear in
  configured s /\ m_fftBufferFill s = m_overlapSize s.
Proof.
  unfold example_pipeline, construct.
  match goal with
  | |- context [applySettings ?g true ?s0] =>
      pose proof (applySettings_configured g s0) as Hcfg
  end.
  cbn [m_fftBuffer m_powerSpectrum] in Hcfg. rewrite !length_replicate in Hcfg.
  exact (Hcfg eq_refl eq_refl).
Qed.

Lemma framing_without_overlap_witness :
  let s := example_pipeline 64 0 true in
  (exists s' frame,
     feed (replicate 64 (0, 0)) false s = Some s'
     /\ m_glSpectrum s' = Some ([] ++ [frame]))
  /\ (exists s1 s2 frame,
        feed (replicate 32 (1, 0)) false s = Some s1
        /\ m_glSpectrum s1 = Some []
        /\ feed (replicate 32 (0, 1)) false s1 = Some s2
        /\ m_glSpectrum s2 = Some ([] ++ [frame])).
Proof.
  apply (framing_without_overlap (replicate 64 (0, 0)) (replicate 32 (1, 0))
           (replicate 32 (0, 1)) false (example_pipeline 64 0 true) [] tt);
    try reflexivity.
  apply example_pipeline_configured.
Defined.

Lemma feed_reorders_witness :
  let s := example_pipeline 64 0 true in
  exists (buf : list Complex) (P : list fp) (s' : SpectrumVis),
    let fftOut := fft_out tt (window_apply (m_window s) buf) in
    write_samples (m_scalef s) (Z.to_nat (m_fftBufferFill s))
      (replicate 64 (3, 4)) (m_fftBuffer s) = Some buf
    /\ feed (replicate 64 (3, 4)) true s = Some s'
    /\ m_glSpectrum s' = Some ([] ++ [{| gl_spectrum := P; gl_fftSize := 64 |}])
    /\ (true = false -> forall i : nat, (i < 32)%nat ->
          P !! i = Some (display s (power (fftOut (i + 32)%nat)))
          /\ P !! (i + 32)%nat = Some (display s (power (fftOut i))))
    /\ (true = true -> forall i : nat, (i < 32)%nat ->
          P !! (2 * i)%nat = Some (display s (power (fftOut i)))
          /\ P !! (2 * i + 1)%nat = Some (display s (power (fftOut i)))).
Proof.
  apply (feed_reorders (replicate 64 (3, 4)) true (example_pipeline 64 0 true) [] tt);
    try reflexivity.
  - apply example_pipeline_configured.
  - change (0 <= 0 < 64). lia.
Defined.

Lemma feed_bins_zero_pads_witness :
  let s := example_pipeline 64 0 true in
  exists (P : list fp) (s' : SpectrumVis),
    feed_bins [(Num 3, Num 4); (Num 1, Num 0)] 2 s = Some s'
    /\ m_powerSpectrum s' = P
    /\ m_glSpectrum s' = Some ([] ++ [{| gl_spectrum := P; gl_fftSize := 64 |}])
    /\ (forall i : nat, Z.of_nat i < 64 -> Z.of_nat i < 2 ->
          exists c, [(Num 3, Num 4); (Num 1, Num 0)] !! i = Some c
                    /\ P !! i = Some (display s (power c)))
    /\ (forall i : nat, Z.of_nat i < 64 -> 2 <= Z.of_nat i ->
          P !! i = Some (display s (power (Num 0, Num 0)))
          /\ (true = true -> P !! i = Some (Num 0)))
    /\ (forall i : nat, 64 <= Z.of_nat i -> P !! i = m_powerSpectrum s !! i).
Proof.
  apply (feed_bins_zero_pads [(Num 3, Num 4); (Num 1, Num 0)] 2
           (example_pipeline 64 0 true) []); try reflexivity.
  all: first [apply example_pipeline_configured | change (Z.min 2 64 <= 2); lia].
Defined.

End Example.

End SpectrumVis_Facts.
